(** * MovieMate: the file-mediated request/response channel and the
    conversation store of [src/app.py]

    The development embeds the chat side of [app.py]: the function
    [communicate_with_scala] (lines 21-54), [list_files_in_folder]
    (lines 13-18) and the "Chat Interface" branch of [main] (lines 228-284).
    Python statements become computations in a small state-and-exception
    monad over a [World] made of the file system, a clock advanced by
    [time.sleep], Streamlit's session state and the sequence of observable
    events (file opens, sleeps, messages shown to the user).

    The answering engine is another process.  It is a parameter
    [engine : nat -> FS -> FS]: what the rest of the machine does to the file
    system during the sleep that starts at a given clock value. *)

From stdpp Require Import base gmap sets list strings.
From Stdlib Require Import Ascii NArith.

(** ** Text *)

Module Text.

(** [str.isspace] on the code points below 256, as CPython classifies
    them: TAB..CR, FS..US, SPACE, NEL and NBSP. *)
Definition isspace (c : ascii) : bool :=
  let n := N_of_ascii c in
  ((9 <=? n) && (n <=? 13) || (28 <=? n) && (n <=? 32)
   || (n =? 133) || (n =? 160))%N.

Fixpoint lstrip (s : string) : string :=
  match s with
  | String c rest => if isspace c then lstrip rest else s
  | EmptyString => EmptyString
  end.

Definition rstrip (s : string) : string :=
  String.rev (lstrip (String.rev s)).

(** [s.strip()] *)
Definition strip (s : string) : string := rstrip (lstrip s).

(** Truth value of a [str]: non-empty. *)
Definition truthy (s : string) : bool :=
  match s with EmptyString => false | String _ _ => true end.

Definition newline : ascii := "010"%char.
Definition nl : string := String newline EmptyString.

(** [file.readline()] on a freshly opened file: the text up to and
    including the first line terminator. *)
Fixpoint readline (s : string) : string :=
  match s with
  | EmptyString => EmptyString
  | String c rest =>
      if Ascii.eqb c newline then String c EmptyString
      else String c (readline rest)
  end.

Fixpoint strip_prefix (p s : string) : option string :=
  match p, s with
  | EmptyString, _ => Some s
  | String a p', String b s' =>
      if Ascii.eqb a b then strip_prefix p' s' else None
  | String _ _, EmptyString => None
  end.

Fixpoint contains (c : ascii) (s : string) : bool :=
  match s with
  | EmptyString => false
  | String b rest => Ascii.eqb b c || contains c rest
  end.

Fixpoint ends_with (c : ascii) (s : string) : bool :=
  match s with
  | EmptyString => false
  | String b EmptyString => Ascii.eqb b c
  | String _ rest => ends_with c rest
  end.

End Text.

(** ** The file system *)

Inductive exn :=
| FileNotFoundError (path : string)
| PermissionError (path : string)
| IsADirectoryError (path : string)
| NotADirectoryError (path : string)
| FileExistsError (path : string)
| TypeError (what : string)
| AttributeError (what : string).

(** [str(e)] *)
Definition str_exn (e : exn) : string :=
  match e with
  | FileNotFoundError p => "[Errno 2] No such file or directory: '" +:+ p +:+ "'"
  | PermissionError p => "[Errno 13] Permission denied: '" +:+ p +:+ "'"
  | IsADirectoryError p => "[Errno 21] Is a directory: '" +:+ p +:+ "'"
  | NotADirectoryError p => "[Errno 20] Not a directory: '" +:+ p +:+ "'"
  | FileExistsError p => "[Errno 17] File exists: '" +:+ p +:+ "'"
  | TypeError what => what
  | AttributeError what => what
  end.

(** Paths are the strings the program passes to [open]; two paths name the
    same file exactly when they are equal.  File contents are the text that
    Python's text mode presents.  [unreadable] and [unwritable] are the paths
    on which the operating system refuses the access (permissions, a missing
    parent directory, a full disk); an [open] either completes or raises and
    leaves the file as it was. *)
Record FS := mkFS {
  files : gmap string string;
  dirs : gset string;
  unreadable : gset string;
  unwritable : gset string
}.

Definition set_files (g : gmap string string → gmap string string) (f : FS) : FS :=
  mkFS (g (files f)) (dirs f) (unreadable f) (unwritable f).

Definition set_dirs (g : gset string → gset string) (f : FS) : FS :=
  mkFS (files f) (g (dirs f)) (unreadable f) (unwritable f).

Module os.

(** [os.path.exists(p)] *)
Definition exists_ (p : string) (f : FS) : bool :=
  bool_decide (p ∈ dirs f) || bool_decide (is_Some (files f !! p)).

(** [os.path.isfile(p)] *)
Definition isfile (p : string) (f : FS) : bool :=
  bool_decide (is_Some (files f !! p)).

(** [os.path.join(a, b)] for a relative [b]. *)
Definition join (a b : string) : string :=
  if Text.truthy a && negb (Text.ends_with "/" a) then a +:+ "/" +:+ b
  else a +:+ b.

(** The name under which the entry at path [k] appears in a listing of
    [folder], if it lies directly inside it. *)
Definition child_name (folder k : string) : option string :=
  match Text.strip_prefix (join folder "") k with
  | Some n => if Text.truthy n && negb (Text.contains "/" n) then Some n else None
  | None => None
  end.

Definition drop_slash (k : string) : string :=
  if Text.ends_with "/" k then String.rev (match String.rev k with
                                           | String _ r => r
                                           | EmptyString => EmptyString
                                           end)
  else k.

(** The entries of [folder]: regular files, then sub-directories. *)
Definition entries (folder : string) (f : FS) : list string :=
  omap (child_name folder) (map_to_list (files f)).*1
  ++ omap (λ k, child_name folder (drop_slash k)) (elements (dirs f)).

End os.

(** ** Worlds, events and the monad of Python computations *)

Inductive mode := R | W | A.

(** What an observer of the process sees, in order. *)
Inductive event :=
| Open (m : mode) (path : string) (ok : bool)
| MakeDirs (path : string) (ok : bool)
| Sleep (seconds : nat)
| StError (msg : string)
| ChatMessage (role text : string).

(** One entry of [st.session_state.chat_memory]: the dict
    [{'question': ..., 'answer': ...}]. *)
Record interaction := mkInteraction { question : string; answer : string }.

Inductive ss_value :=
| PyNone
| PyList (l : list interaction).

Record World := mkWorld {
  fs : FS;
  clock : nat;
  trace : list event;
  session_state : gmap string ss_value
}.

Inductive outcome (T : Type) :=
| Ret (v : T) (w : World)
| Raise (e : exn) (w : World).
Arguments Ret {T} v w.
Arguments Raise {T} e w.

Definition Py (T : Type) : Type := World → outcome T.

Definition ret {T} (v : T) : Py T := λ w, Ret v w.
Definition raise {T} (e : exn) : Py T := λ w, Raise e w.
Definition bind {T U} (m : Py T) (k : T → Py U) : Py U :=
  λ w, match m w with
       | Ret v w' => k v w'
       | Raise e w' => Raise e w'
       end.

(** [try: m  except Exception as e: h e] *)
Definition try_except {T} (m : Py T) (h : exn → Py T) : Py T :=
  λ w, match m w with
       | Ret v w' => Ret v w'
       | Raise e w' => h e w'
       end.

Notation "'do' x <- m ; k" := (bind m (λ x, k))
  (at level 10, x name, m at level 99, k at level 200).
Notation "m ;;; k" := (bind m (λ _, k))
  (at level 100, k at level 200, right associativity).

Definition final_world {T} (o : outcome T) : World :=
  match o with Ret _ w => w | Raise _ w => w end.

(** The world after the events [evs] were observed. *)
Definition log (evs : list event) (w : World) : World :=
  mkWorld (fs w) (clock w) (trace w ++ evs) (session_state w).

Definition set_fs (f : FS) (w : World) : World :=
  mkWorld f (clock w) (trace w) (session_state w).

Definition emit (e : event) : Py unit := λ w, Ret tt (log [e] w).

Definition get_fs : Py FS := λ w, Ret (fs w) w.

Definition put_fs (f : FS) : Py unit := λ w, Ret tt (set_fs f w).

(** The check every [open] for reading makes. *)
Definition read_check (path : string) (f : FS) : exn + string :=
  if bool_decide (path ∈ dirs f) then inl (IsADirectoryError path)
  else if bool_decide (path ∈ unreadable f) then inl (PermissionError path)
  else match files f !! path with
       | Some c => inr c
       | None => inl (FileNotFoundError path)
       end.

(** The check every [open] for writing or appending makes. *)
Definition write_check (path : string) (f : FS) : option exn :=
  if bool_decide (path ∈ dirs f) then Some (IsADirectoryError path)
  else if bool_decide (path ∈ unwritable f) then Some (PermissionError path)
  else None.

(** [with open(path, 'r') as file: file.read()] *)
Definition read_file (path : string) : Py string :=
  do f <- get_fs;
  match read_check path f with
  | inr c => emit (Open R path true) ;;; ret c
  | inl e => emit (Open R path false) ;;; raise e
  end.

(** [with open(path, 'w') as file: file.write(data)] *)
Definition write_file (path data : string) : Py unit :=
  do f <- get_fs;
  match write_check path f with
  | None => emit (Open W path true) ;;; put_fs (set_files <[path := data]> f)
  | Some e => emit (Open W path false) ;;; raise e
  end.

(** [with open(path, 'a') as file: file.write(data)] *)
Definition append_file (path data : string) : Py unit :=
  do f <- get_fs;
  match write_check path f with
  | None =>
      emit (Open A path true) ;;;
      put_fs (set_files <[path := default "" (files f !! path) +:+ data]> f)
  | Some e => emit (Open A path false) ;;; raise e
  end.

(** [os.makedirs(path)] *)
Definition makedirs (path : string) : Py unit :=
  do f <- get_fs;
  if os.exists_ path f then emit (MakeDirs path false) ;;; raise (FileExistsError path)
  else if bool_decide (path ∈ unwritable f)
       then emit (MakeDirs path false) ;;; raise (PermissionError path)
       else emit (MakeDirs path true) ;;; put_fs (set_dirs (union {[path]}) f).

(** [os.listdir(path)] *)
Definition listdir (path : string) : Py (list string) :=
  do f <- get_fs;
  if bool_decide (path ∈ dirs f) then ret (os.entries path f)
  else if os.isfile path f then raise (NotADirectoryError path)
       else raise (FileNotFoundError path).

(** [st.error(msg)] *)
Definition st_error (msg : string) : Py unit := emit (StError msg).

(** [st.chat_message(role).write(text)] *)
Definition chat_message_write (role text : string) : Py unit :=
  emit (ChatMessage role text).

(** ** The program *)

Definition fallback_message : string :=
  "I'm having trouble processing that. Could you try again?".

Definition input_file : string := "src/main/connection/pyinput.txt".
Definition output_file : string := "src/main/connection/scalaoutput.txt".
Definition conversations_dir : string := "conversations/".
Definition USER : string := "user".
Definition ASSISTANT : string := "assistant".

(** [l.remove(x)] for an [x] that occurs in [l]: the first occurrence goes. *)
Fixpoint list_remove_first (x : string) (l : list string) : list string :=
  match l with
  | [] => []
  | y :: rest => if decide (x = y) then rest else y :: list_remove_first x rest
  end.

(** [list_files_in_folder], lines 13-18. *)
Definition list_files_in_folder (folder_path : string) : Py (list string) :=
  do names <- listdir folder_path;
  do f <- get_fs;
  ret (filter (λ file, Is_true (os.isfile (os.join folder_path file) f)) names).

(** ["key" not in st.session_state] followed by the assignment, lines 232-237. *)
Definition session_default (key : string) (v : ss_value) : Py unit :=
  λ w, match session_state w !! key with
       | Some _ => Ret tt w
       | None => Ret tt (mkWorld (fs w) (clock w) (trace w)
                                 (<[key := v]> (session_state w)))
       end.

(** [st.session_state.chat_memory], read. *)
Definition chat_memory : Py (list interaction) :=
  λ w, match session_state w !! "chat_memory" with
       | Some (PyList l) => Ret l w
       | Some PyNone => Raise (TypeError "'NoneType' object is not iterable") w
       | None => Raise (AttributeError "st.session_state has no attribute 'chat_memory'") w
       end.

(** [st.session_state.chat_memory.append(x)], line 280. *)
Definition chat_memory_append (x : interaction) : Py unit :=
  λ w, match session_state w !! "chat_memory" with
       | Some (PyList l) =>
           Ret tt (mkWorld (fs w) (clock w) (trace w)
                           (<["chat_memory" := PyList (l ++ [x])]> (session_state w)))
       | Some PyNone =>
           Raise (AttributeError "'NoneType' object has no attribute 'append'") w
       | None => Raise (AttributeError "st.session_state has no attribute 'chat_memory'") w
       end.

Fixpoint for_each {T} (l : list T) (body : T → Py unit) : Py unit :=
  match l with
  | [] => ret tt
  | x :: rest => body x ;;; for_each rest body
  end.

(** [if not os.path.exists(path): body] *)
Definition if_not_exists (path : string) (body : Py unit) : Py unit :=
  λ w, if os.exists_ path (fs w) then Ret tt w else body w.

(** Lines 243-265 of [main]: the store area, the pointer to the current
    conversation and the first log.  The result is the pair
    [(conversation_files, current_chat)]. *)
Definition ensure_initialized : Py (list string * string) :=
  if_not_exists conversations_dir (makedirs conversations_dir) ;;;
  if_not_exists (conversations_dir +:+ "currentchat.txt")
    (write_file (conversations_dir +:+ "currentchat.txt") "chathistory_0.txt") ;;;
  do listed <- list_files_in_folder conversations_dir;
  let conversation_files :=
    if bool_decide ("currentchat.txt" ∈ listed)
    then list_remove_first "currentchat.txt" listed else listed in
  do conversation_files <-
    (if length conversation_files =? 0
     then write_file (conversations_dir +:+ "chathistory_0.txt") "" ;;;
          ret ["chathistory_0.txt"]
     else ret conversation_files);
  do content <- read_file (conversations_dir +:+ "currentchat.txt");
  let current_chat := Text.strip (Text.readline content) in
  ret (conversation_files, current_chat).

Inductive page := ChatInterface | AnalyticsDashboard.

(** Lines 29-30: the request goes to its slot, followed by a line
    terminator. *)
Definition send (user_input : string) : Py unit :=
  write_file input_file (user_input +:+ Text.nl).

(** Lines 37-43: the response slot is read and, when the trimmed text is not
    empty, cleared.  [Some v] stands for [return v], [None] for falling out
    of the [with] block. *)
Definition try_receive : Py (option string) :=
  do content <- read_file output_file;
  let scala_output := Text.strip content in
  if Text.truthy scala_output
  then write_file output_file "" ;;; ret (Some scala_output)
  else ret None.

(** ** Vocabulary of the statements *)

(** What one pass through lines 37-43 finds in a file system: a value (the
    read and the clear both went through), nothing, or a storage error. *)
Inductive poll_result :=
| Got (v : string)
| Empty
| Failed (e : exn).

Definition poll (f : FS) : poll_result :=
  match read_check output_file f with
  | inl e => Failed e
  | inr c =>
      if Text.truthy (Text.strip c)
      then match write_check output_file f with
           | None => Got (Text.strip c)
           | Some e => Failed e
           end
      else Empty
  end.

(** The file opens of that pass. *)
Definition poll_events (f : FS) : list event :=
  match read_check output_file f with
  | inl _ => [Open R output_file false]
  | inr c =>
      Open R output_file true ::
      (if Text.truthy (Text.strip c)
       then [Open W output_file (match write_check output_file f with
                                 | None => true
                                 | Some _ => false
                                 end)]
       else [])
  end.

(** The response slot, emptied. *)
Definition cleared (f : FS) : FS := set_files <[output_file := ""]> f.

(** The request slot, holding [user_input] and a line terminator. *)
Definition sent (user_input : string) (f : FS) : FS :=
  set_files <[input_file := user_input +:+ Text.nl]> f.

(** The protocol steps among the events: the write of the request slot, a
    wait, a read of the response slot. *)
Inductive step :=
| Send
| Wait (seconds : nat)
| Read.

Definition step_of (e : event) : option step :=
  match e with
  | Open W p _ => if decide (p = input_file) then Some Send else None
  | Open R p _ => if decide (p = output_file) then Some Read else None
  | Sleep d => Some (Wait d)
  | _ => None
  end.

Definition steps (evs : list event) : list step := omap step_of evs.

(** The text of the response slot, empty when the file is missing. *)
Definition slot_text (f : FS) : string := default "" (files f !! output_file).

(** The regular files directly inside [folder], as [list_files_in_folder]
    reports them. *)
Definition file_names (folder : string) (f : FS) : list string :=
  filter (λ file, Is_true (os.isfile (os.join folder file) f)) (os.entries folder f).

(** The conversation logs: those files, without the pointer. *)
Definition conversation_logs (f : FS) : list string :=
  let listed := file_names conversations_dir f in
  if bool_decide ("currentchat.txt" ∈ listed)
  then list_remove_first "currentchat.txt" listed else listed.

(** Every file and directory of [f] is in [f'], with the same text. *)
Definition extends (f f' : FS) : Prop :=
  files f ⊆ files f' ∧ dirs f ⊆ dirs f'.

(** The file at [path], if it exists in [f], exists in [f'] and its old text
    is a prefix of the new one. *)
Definition grows (path : string) (f f' : FS) : Prop :=
  ∀ c, files f !! path = Some c → ∃ s, files f' !! path = Some (c +:+ s).

(** Whatever the outcome of [m], the file systems before and after it are
    related by [rel]. *)
Definition always {T} (rel : relation FS) (m : Py T) : Prop :=
  ∀ w, rel (fs w) (fs (final_world (m w))).

(** The world once the exchange [(q, v)] was shown and appended to the
    session memory [mem]. *)
Definition remembered (q v : string) (mem : list interaction) (w : World) : World :=
  mkWorld (fs w) (clock w)
          (trace w ++ [ChatMessage USER q; ChatMessage ASSISTANT v])
          (<["chat_memory" := PyList (mem ++ [mkInteraction q v])]> (session_state w)).

(** Clock and session state are the same in both worlds. *)
Definition same_session (w w' : World) : Prop :=
  clock w' = clock w ∧ session_state w' = session_state w.

Definition exception_of {T} (o : outcome T) : option exn :=
  match o with Ret _ _ => None | Raise e _ => Some e end.

Section Program.

(** What the other processes do to the file system during the sleep that
    starts when the clock shows [t]. *)
Variable engine : nat → FS → FS.

(** [time.sleep(seconds)] *)
Definition sleep (seconds : nat) : Py unit :=
  λ w, Ret tt (mkWorld (engine (clock w) (fs w)) (clock w + seconds)
                       (trace w ++ [Sleep seconds]) (session_state w)).

(** Lines 36-48: one pass through the inner [try].  [Some v] stands for
    [return v], [None] for reaching the end of the loop body (also through
    [continue]). *)
Definition attempt_body (max_retries : nat) (attempt : nat) : Py (option string) :=
  try_except try_receive
    (λ e, if attempt =? max_retries - 1
          then st_error ("Error reading Scala response: " +:+ str_exn e) ;;;
               ret (Some fallback_message)
          else ret None).

(** Lines 33-50: [for attempt in range(max_retries)] and the [return] after
    the loop. *)
Fixpoint retry_loop (max_retries retry_delay : nat) (attempts : list nat) : Py string :=
  match attempts with
  | [] => ret fallback_message
  | attempt :: rest =>
      sleep retry_delay ;;;
      do r <- attempt_body max_retries attempt;
      match r with
      | Some v => ret v
      | None => retry_loop max_retries retry_delay rest
      end
  end.

(** [communicate_with_scala], lines 21-54. *)
Definition communicate_with_scala (user_input : string) : Py string :=
  let max_retries := 3 in
  let retry_delay := 2 in
  try_except
    (send user_input ;;;
     retry_loop max_retries retry_delay (seq 0 max_retries))
    (λ e, st_error ("Error communicating with backend: " +:+ str_exn e) ;;;
          ret fallback_message).

(** Lines 275-284 of [main]: one question.  [user_question] is the value of
    [st.chat_input], [None] when nothing was submitted. *)
Definition ask (current_chat : string) (user_question : option string) : Py unit :=
  match user_question with
  | Some q =>
      if Text.truthy q then
        do response <- communicate_with_scala q;
        chat_message_write USER q ;;;
        chat_message_write ASSISTANT response ;;;
        chat_memory_append (mkInteraction q response) ;;;
        append_file (conversations_dir +:+ current_chat) (q +:+ Text.nl)
      else ret tt
  | None => ret tt
  end.

(** [main], lines 217-284.  The analytics page reads a table of quiz
    attempts and draws charts; it touches nothing of the state modelled
    here and catches its own exceptions. *)
Definition main (p : page) (user_question : option string) : Py unit :=
  match p with
  | ChatInterface =>
      session_default "conversation" PyNone ;;;
      session_default "chat_memory" (PyList []) ;;;
      do init <- ensure_initialized;
      let current_chat := init.2 in
      do memory <- chat_memory;
      for_each memory (λ i, chat_message_write USER (question i) ;;;
                            chat_message_write ASSISTANT (answer i)) ;;;
      ask current_chat user_question
  | AnalyticsDashboard => ret tt
  end.

(** The file system after [n] sleeps of [retry_delay] that start at clock
    [t], when the program itself writes nothing in between. *)
Fixpoint slept (retry_delay n t : nat) (f : FS) : FS :=
  match n with
  | 0 => f
  | S n' => slept retry_delay n' (t + retry_delay) (engine t f)
  end.

(** What attempt [i] (counted from 0) finds. *)
Definition observed (retry_delay t : nat) (f : FS) (i : nat) : poll_result :=
  poll (slept retry_delay (S i) t f).

(** None of the first [k] attempts obtains a value. *)
Definition quiet_before (retry_delay t : nat) (f : FS) (k : nat) : Prop :=
  ∀ i, i < k → ∀ v, observed retry_delay t f i ≠ Got v.

(** The engine leaves the file at [path] as it is: its text and whether it
    can be written. *)
Definition untouched (path : string) : Prop :=
  ∀ t f, files (engine t f) !! path = files f !! path
         ∧ write_check path (engine t f) = write_check path f.

(** The world after [n] such sleeps. *)
Definition after_sleeps (retry_delay n : nat) (w : World) : World :=
  mkWorld (slept retry_delay n (clock w) (fs w)) (clock w + retry_delay * n)
          (trace w) (session_state w).

End Program.

(** ** Vocabulary of the further statements *)

(** The messages of the [st.error] calls among the events. *)
Definition errors (evs : list event) : list string :=
  omap (λ e, match e with StError msg => Some msg | _ => None end) evs.

(** What lines 271-273 show for the session memory [mem]. *)
Definition replay (mem : list interaction) : list event :=
  concat (map (λ i, [ChatMessage USER (question i); ChatMessage ASSISTANT (answer i)]) mem).

(** The world once lines 232-237 ran. *)
Definition with_defaults (w : World) : World :=
  final_world ((session_default "conversation" PyNone ;;;
                session_default "chat_memory" (PyList [])) w).

(** Whatever the outcome of [m], the worlds before and after it are related
    by [rel]. *)
Definition throughout {T} (rel : relation World) (m : Py T) : Prop :=
  ∀ w, rel w (final_world (m w)).

(** Nothing of the channel protocol happened between two worlds: the clock
    is the same and the events added hold no write of the request slot, no
    wait and no read of the response slot. *)
Definition no_step (w w' : World) : Prop :=
  clock w' = clock w ∧ ∃ evs, trace w' = trace w ++ evs ∧ steps evs = [].

(** The session memory of [w], if there is one, is a prefix of that of
    [w']. *)
Definition remembers (w w' : World) : Prop :=
  ∀ l, session_state w !! "chat_memory" = Some (PyList l) →
       ∃ l', session_state w' !! "chat_memory" = Some (PyList (l ++ l')).

(** The session state is the same in both worlds. *)
Definition same_memory (w w' : World) : Prop :=
  session_state w' = session_state w.

(** The file at [path] is the same in both file systems. *)
Definition unchanged (path : string) (f f' : FS) : Prop :=
  files f' !! path = files f !! path.

(** No directory lies directly inside the store area. *)
Definition no_subdirectories (f : FS) : Prop :=
  ∀ k, k ∈ dirs f → os.child_name conversations_dir (os.drop_slash k) = None.

(** The [st.error] messages of [n] rounds of the retry loop, the last of
    them being round [max_retries - 1], that start at clock [t] on the file
    system [f]. *)
Fixpoint shown_errors (engine : nat → FS → FS) (d n t : nat) (f : FS) : list string :=
  match n with
  | 0 => []
  | S n' =>
      match poll (engine t f) with
      | Got _ => []
      | Empty => shown_errors engine d n' (t + d) (engine t f)
      | Failed e =>
          match n' with
          | 0 => ["Error reading Scala response: " +:+ str_exn e]
          | S _ => shown_errors engine d n' (t + d) (engine t f)
          end
      end
  end.

(** ** Sample worlds *)

(** The engine that never runs. *)
Definition idle : nat → FS → FS := λ _ f, f.

(** The engine that writes [text] to the response slot during the sleep that
    starts at clock [t0], and does nothing otherwise. *)
Definition answering (t0 : nat) (text : string) : nat → FS → FS :=
  λ t f, if t =? t0 then set_files <[output_file := text]> f else f.

(** An initialised store with one question in its log, and both slots
    empty. *)
Definition store_ready : FS :=
  mkFS {[ "conversations/currentchat.txt" := "chathistory_0.txt";
          "conversations/chathistory_0.txt" := "What is Inception?" +:+ Text.nl;
          input_file := ""; output_file := "" ]}
       {[ conversations_dir ]} ∅ ∅.

(** The same store when the log cannot be written. *)
Definition read_only_log : FS :=
  mkFS (files store_ready) (dirs store_ready) ∅ {[ "conversations/chathistory_0.txt" ]}.

(** The same store when the request slot cannot be written. *)
Definition read_only_request : FS :=
  mkFS (files store_ready) (dirs store_ready) ∅ {[ input_file ]}.

(** The same store with a response waiting in its slot. *)
Definition response_waiting : FS :=
  set_files <[output_file := " Inception (2010) is a sci-fi thriller." +:+ Text.nl]>
            store_ready.

Definition empty_fs : FS := mkFS ∅ ∅ ∅ ∅.

(** The same store with a response in a slot that cannot be written. *)
Definition read_only_response : FS :=
  mkFS (files response_waiting) (dirs store_ready) ∅ {[ output_file ]}.

(** A store area with a pointer that names a log of its own choice, and no
    log yet. *)
Definition pointer_only : FS :=
  mkFS {[ "conversations/currentchat.txt" := " chat7.txt " +:+ Text.nl +:+ "ignored" ]}
       {[ conversations_dir ]} ∅ ∅.

(** The same store when the response slot cannot be read. *)
Definition unreadable_response : FS :=
  mkFS (files store_ready) (dirs store_ready) {[ output_file ]} ∅.

(** A world at the start of a session, and one in the middle of it. *)
Definition fresh (f : FS) : World := mkWorld f 0 [] ∅.

Definition session_started (f : FS) : World :=
  mkWorld f 0 [] {[ "conversation" := PyNone; "chat_memory" := PyList [] ]}.

(** A world in the middle of a session, with one exchange remembered. *)
Definition one_exchange : list interaction :=
  [mkInteraction "What is Inception?" "Inception (2010) is a sci-fi thriller."].

Definition mid_session (f : FS) : World :=
  mkWorld f 0 [] {[ "conversation" := PyNone; "chat_memory" := PyList one_exchange ]}.

(** * Properties *)

(** ** Text and paths *)

Lemma truthy_true s : Text.truthy s = true ↔ s ≠ "".
Proof. destruct s; simpl; split; congruence. Qed.

Lemma input_output_distinct : input_file ≠ output_file.
Proof. discriminate. Qed.

Lemma conversation_not_input n : conversations_dir +:+ n ≠ input_file.
Proof. discriminate. Qed.

Lemma conversation_not_output n : conversations_dir +:+ n ≠ output_file.
Proof. discriminate. Qed.

Lemma append_nonempty s t : t ≠ "" → s +:+ t ≠ s.
Proof.
  intros Ht. induction s as [|c s IH]; simpl; [done|].
  intros [= H]. by apply IH.
Qed.

(** ** Worlds *)

Lemma log_log evs1 evs2 w : log evs2 (log evs1 w) = log (evs1 ++ evs2) w.
Proof. unfold log. simpl. by rewrite app_assoc. Qed.

Lemma set_fs_log f evs w : set_fs f (log evs w) = log evs (set_fs f w).
Proof. reflexivity. Qed.

(** ** The primitives, run *)

Lemma read_file_run path w :
  read_file path w =
  match read_check path (fs w) with
  | inr c => Ret c (log [Open R path true] w)
  | inl e => Raise e (log [Open R path false] w)
  end.
Proof. unfold read_file, bind, get_fs. by destruct (read_check path (fs w)). Qed.

Lemma write_file_run path data w :
  write_file path data w =
  match write_check path (fs w) with
  | None => Ret tt (log [Open W path true] (set_fs (set_files <[path := data]> (fs w)) w))
  | Some e => Raise e (log [Open W path false] w)
  end.
Proof. unfold write_file, bind, get_fs. by destruct (write_check path (fs w)). Qed.

Lemma append_file_run path data w :
  append_file path data w =
  match write_check path (fs w) with
  | None =>
      Ret tt (log [Open A path true]
                  (set_fs (set_files <[path := default "" (files (fs w) !! path) +:+ data]>
                                     (fs w)) w))
  | Some e => Raise e (log [Open A path false] w)
  end.
Proof. unfold append_file, bind, get_fs. by destruct (write_check path (fs w)). Qed.

Lemma read_check_inr path f c :
  read_check path f = inr c → files f !! path = Some c.
Proof.
  unfold read_check. repeat case_bool_decide; try done.
  destruct (files f !! path); congruence.
Qed.

(** ** One poll of the response slot *)

Lemma try_receive_run w :
  try_receive w =
  match poll (fs w) with
  | Got v => Ret (Some v) (log (poll_events (fs w)) (set_fs (cleared (fs w)) w))
  | Empty => Ret None (log (poll_events (fs w)) w)
  | Failed e => Raise e (log (poll_events (fs w)) w)
  end.
Proof.
  unfold try_receive, bind, poll, poll_events. rewrite read_file_run.
  destruct (read_check output_file (fs w)) as [e|c]; [done|].
  destruct (Text.truthy (Text.strip c)); [|done].
  rewrite write_file_run. simpl.
  destruct (write_check output_file (fs w));
    unfold ret; by rewrite ?set_fs_log, ?log_log.
Qed.

Lemma poll_got f v :
  poll f = Got v →
  ∃ c, files f !! output_file = Some c ∧ v = Text.strip c ∧ v ≠ ""
       ∧ write_check output_file f = None.
Proof.
  unfold poll. destruct (read_check output_file f) as [e|c] eqn:Hr; [done|].
  destruct (Text.truthy (Text.strip c)) eqn:Ht; [|done].
  destruct (write_check output_file f) eqn:Hw; [done|].
  intros [= <-]. exists c. split_and!; auto using read_check_inr.
  by apply truthy_true.
Qed.

Lemma poll_cleared f v : poll f = Got v → poll (cleared f) = Empty.
Proof.
  intros Hp. unfold poll in *.
  assert (read_check output_file (cleared f) = inr "") as ->; [|done].
  unfold read_check in *. simpl.
  repeat case_bool_decide; try done. by rewrite lookup_insert_eq.
Qed.

Lemma steps_app evs1 evs2 : steps (evs1 ++ evs2) = steps evs1 ++ steps evs2.
Proof. apply omap_app. Qed.

Lemma steps_poll_events f : steps (poll_events f) = [Read].
Proof.
  unfold poll_events. destruct (read_check output_file f) as [e|c]; [done|].
  by destruct (Text.truthy (Text.strip c)).
Qed.

Lemma poll_events_no_clear f :
  (∀ v, poll f ≠ Got v) → Open W output_file true ∉ poll_events f.
Proof.
  unfold poll, poll_events. intros Hq.
  destruct (read_check output_file f) as [e|c].
  { intros [=]%list_elem_of_singleton. }
  destruct (Text.truthy (Text.strip c)).
  - destruct (write_check output_file f); [|by destruct (Hq (Text.strip c))].
    rewrite !elem_of_cons. intros [[=]|[[=]|[]%elem_of_nil]].
  - intros [=]%list_elem_of_singleton.
Qed.

Lemma poll_events_empty f : poll f = Empty → poll_events f = [Open R output_file true].
Proof.
  unfold poll, poll_events. destruct (read_check output_file f) as [e|c]; [done|].
  destruct (Text.truthy (Text.strip c)); [|done].
  by destruct (write_check output_file f).
Qed.

Lemma poll_sent user_input f : poll (sent user_input f) = poll f.
Proof.
  unfold poll, read_check, write_check, sent. simpl.
  rewrite lookup_insert_ne by apply input_output_distinct. reflexivity.
Qed.

Lemma send_run user_input w :
  send user_input w =
  match write_check input_file (fs w) with
  | None => Ret tt (log [Open W input_file true] (set_fs (sent user_input (fs w)) w))
  | Some e => Raise e (log [Open W input_file false] w)
  end.
Proof. apply write_file_run. Qed.

Lemma poll_after_send user_input w :
  poll (fs (final_world (send user_input w))) = poll (fs w).
Proof.
  rewrite send_run. destruct (write_check input_file (fs w)); [done|].
  simpl. apply poll_sent.
Qed.

Lemma try_receive_empty w :
  poll (fs w) = Empty → try_receive w = Ret None (log [Open R output_file true] w).
Proof. intros Hp. by rewrite try_receive_run, Hp, poll_events_empty. Qed.

Lemma try_receive_some w v w' :
  try_receive w = Ret (Some v) w' →
  poll (fs w) = Got v ∧ fs w' = cleared (fs w).
Proof.
  rewrite try_receive_run. destruct (poll (fs w)); [|done..].
  by intros [= <- <-].
Qed.

(** C4: when the pass through lines 37-43 hands back a value, that value is
    the non-empty trimmed text of the response slot and the slot has been
    cleared by the same pass, so that a second pass right after it finds the
    slot empty and hands back nothing; and a pass over a readable slot whose
    text trims to nothing hands back nothing without raising. *)
Theorem try_receive_consumes w :
  (∀ v w', try_receive w = Ret (Some v) w' →
     (∃ c, files (fs w) !! output_file = Some c ∧ v = Text.strip c ∧ v ≠ "") ∧
     files (fs w') !! output_file = Some "" ∧
     try_receive w' = Ret None (log [Open R output_file true] w')) ∧
  (∀ c, read_check output_file (fs w) = inr c → Text.strip c = "" →
     try_receive w = Ret None (log [Open R output_file true] w)).
Proof.
  split.
  - intros v w' [Hp Hfs]%try_receive_some.
    destruct (poll_got _ _ Hp) as (c & Hc & Hv & Hne & _).
    split_and!; [by exists c| |].
    + rewrite Hfs. apply lookup_insert_eq.
    + apply try_receive_empty. rewrite Hfs. by eapply poll_cleared.
  - intros c Hc Hs. apply try_receive_empty. unfold poll. by rewrite Hc, Hs.
Qed.

(** C3: once a response has been consumed, writing the next request and
    reading the response slot at once, before the engine has had any time to
    run, yields no value: the consumed response is not seen again. *)
Theorem send_then_receive_not_stale user_input w v w1 :
  try_receive w = Ret (Some v) w1 →
  let w2 := final_world (send user_input w1) in
  files (fs w2) !! output_file = Some "" ∧
  try_receive w2 = Ret None (log [Open R output_file true] w2).
Proof.
  intros [Hp Hfs]%try_receive_some w2.
  assert (Hempty : poll (fs w2) = Empty).
  { unfold w2. rewrite poll_after_send, Hfs. by eapply poll_cleared. }
  split; [|by apply try_receive_empty].
  unfold w2. rewrite send_run.
  destruct (write_check input_file (fs w1)); simpl; rewrite Hfs.
  - apply lookup_insert_eq.
  - rewrite lookup_insert_ne by apply input_output_distinct. apply lookup_insert_eq.
Qed.

(** ** The retry loop *)

Section Channel.

Variable engine : nat → FS → FS.


Lemma quiet_before_0 d t f : quiet_before engine d t f 0.
Proof. intros i Hi. lia. Qed.

Lemma quiet_before_S d t f k :
  (∀ v, poll (engine t f) ≠ Got v) →
  quiet_before engine d (t + d) (engine t f) k →
  quiet_before engine d t f (S k).
Proof.
  intros H0 Hk [|i] Hi v; [apply H0|].
  apply (Hk i); lia.
Qed.

(** A pass that obtains nothing leaves the loop where the sleep left it,
    apart from the events. *)
Lemma loop_step_world d k evs pe w :
  log evs (after_sleeps engine d k
             (log pe (mkWorld (engine (clock w) (fs w)) (clock w + d)
                              (trace w ++ [Sleep d]) (session_state w)))) =
  log (Sleep d :: pe ++ evs) (after_sleeps engine d (S k) w).
Proof.
  unfold log, after_sleeps. simpl. f_equal; [lia|].
  by rewrite <- !app_assoc.
Qed.

Lemma loop_step_cleared d k evs pe w :
  log evs (set_fs (cleared (slept engine d k (clock w + d) (engine (clock w) (fs w))))
             (after_sleeps engine d k
                (log pe (mkWorld (engine (clock w) (fs w)) (clock w + d)
                                 (trace w ++ [Sleep d]) (session_state w))))) =
  log (Sleep d :: pe ++ evs)
      (set_fs (cleared (slept engine d (S k) (clock w) (fs w))) (after_sleeps engine d (S k) w)).
Proof.
  unfold log, set_fs, after_sleeps. simpl. f_equal; [lia|].
  by rewrite <- !app_assoc.
Qed.

Lemma steps_round d pe evs used :
  steps pe = [Read] →
  steps evs = concat (replicate used [Wait d; Read]) →
  steps (Sleep d :: pe ++ evs) = concat (replicate (S used) [Wait d; Read]).
Proof.
  intros Hpe Hevs. change (Sleep d :: pe ++ evs) with ([Sleep d] ++ pe ++ evs).
  rewrite !steps_app, Hpe, Hevs. reflexivity.
Qed.

(** [retry_loop] over the attempts [a, a+1, ..., max_retries-1], from any
    world: how many attempts it makes, what it returns and where it leaves
    the world. *)
Lemma retry_loop_run max_retries d n : ∀ a w,
  a + n = max_retries →
  ∃ used v evs w',
    retry_loop engine max_retries d (seq a n) w = Ret v w' ∧
    steps evs = concat (replicate used [Wait d; Read]) ∧
    ((∃ k, k < n ∧ used = S k ∧
           quiet_before engine d (clock w) (fs w) k ∧
           observed engine d (clock w) (fs w) k = Got v ∧
           w' = log evs (set_fs (cleared (slept engine d used (clock w) (fs w)))
                                (after_sleeps engine d used w)))
     ∨ (used = n ∧ quiet_before engine d (clock w) (fs w) n ∧
        v = fallback_message ∧
        w' = log evs (after_sleeps engine d n w) ∧
        Open W output_file true ∉ evs)).
Proof.
  induction n as [|n IH]; intros a w Han.
  { exists 0, fallback_message, [], w. split_and!; [done..|].
    right. split_and!; [done|apply quiet_before_0|done| |apply not_elem_of_nil].
    destruct w. unfold log, after_sleeps. simpl.
    f_equal; [lia|by rewrite app_nil_r]. }
  simpl seq. simpl retry_loop. unfold bind at 1. unfold sleep at 1.
  set (w1 := mkWorld (engine (clock w) (fs w)) (clock w + d)
                     (trace w ++ [Sleep d]) (session_state w)).
  unfold bind at 1, attempt_body, try_except. rewrite try_receive_run.
  assert (Hrest : (∀ v, poll (fs w1) ≠ Got v) →
    ∃ used v evs w',
      retry_loop engine max_retries d (seq (S a) n) (log (poll_events (fs w1)) w1) = Ret v w' ∧
      steps evs = concat (replicate used [Wait d; Read]) ∧
      ((∃ k, k < S n ∧ used = S k ∧
             quiet_before engine d (clock w) (fs w) k ∧
             observed engine d (clock w) (fs w) k = Got v ∧
             w' = log evs (set_fs (cleared (slept engine d used (clock w) (fs w)))
                                  (after_sleeps engine d used w)))
       ∨ (used = S n ∧ quiet_before engine d (clock w) (fs w) (S n) ∧
          v = fallback_message ∧
          w' = log evs (after_sleeps engine d (S n) w) ∧
          Open W output_file true ∉ evs))).
  { intros Hq.
    destruct (IH (S a) (log (poll_events (fs w1)) w1)) as (used & v & evs & w' & Hrun & Hsteps & Hcase);
      [lia|].
    exists (S used), v, (Sleep d :: poll_events (fs w1) ++ evs), w'.
    split_and!; [done|by apply steps_round, Hsteps; apply steps_poll_events|].
    destruct Hcase as [(k & Hk & -> & Hquiet & Hobs & ->)|(-> & Hquiet & -> & -> & Hclear)].
    - left. exists (S k). split_and!; [lia|done|by apply quiet_before_S|done|].
      apply loop_step_cleared.
    - right. split_and!; [done|by apply quiet_before_S|done|apply loop_step_world|].
      rewrite elem_of_cons, elem_of_app.
      intros [[=]|[Hin|Hin]]; [|done]. by apply (poll_events_no_clear (fs w1)). }
  destruct (poll (fs w1)) as [v| |e] eqn:Hpoll.
  - exists 1, v, (Sleep d :: poll_events (fs w1)), (log (poll_events (fs w1)) (set_fs (cleared (fs w1)) w1)).
    split_and!; [done| |].
    { change (Sleep d :: poll_events (fs w1)) with ([Sleep d] ++ poll_events (fs w1)).
      by rewrite steps_app, steps_poll_events. }
    left. exists 0. split_and!; [lia|done|apply quiet_before_0|done|].
    unfold log, set_fs, after_sleeps. simpl. f_equal; [lia|].
    by rewrite <- !app_assoc.
  - apply Hrest. congruence.
  - destruct (a =? max_retries - 1) eqn:Hlast.
    + apply Nat.eqb_eq in Hlast. assert (n = 0) as -> by lia.
      exists 1, fallback_message,
        (Sleep d :: poll_events (fs w1) ++ [StError ("Error reading Scala response: " +:+ str_exn e)]),
        (log [StError ("Error reading Scala response: " +:+ str_exn e)] (log (poll_events (fs w1)) w1)).
      split_and!; [done| |].
      { apply (steps_round d _ _ 0); [apply steps_poll_events|done]. }
      right. split_and!; [done| |done| |].
      * apply quiet_before_S; [|apply quiet_before_0].
        fold w1. change (engine (clock w) (fs w)) with (fs w1). congruence.
      * rewrite log_log. unfold log, after_sleeps. simpl. f_equal; [lia|].
        by rewrite <- !app_assoc.
      * rewrite elem_of_cons, elem_of_app, list_elem_of_singleton.
        intros [[=]|[Hin|[=]]].
        apply (poll_events_no_clear (fs w1)); [congruence|done].
    + apply Hrest. congruence.
Qed.

(** ** [communicate_with_scala] *)

Lemma communicate_with_scala_run user_input w :
  match write_check input_file (fs w) with
  | Some e =>
      communicate_with_scala engine user_input w =
      Ret fallback_message
          (log [Open W input_file false;
                StError ("Error communicating with backend: " +:+ str_exn e)] w)
  | None =>
      let f0 := sent user_input (fs w) in
      ∃ used v evs w',
        communicate_with_scala engine user_input w = Ret v w' ∧
        steps evs = concat (replicate used [Wait 2; Read]) ∧
        ((∃ k, k < 3 ∧ used = S k ∧
               quiet_before engine 2 (clock w) f0 k ∧
               observed engine 2 (clock w) f0 k = Got v ∧
               w' = log (Open W input_file true :: evs)
                        (set_fs (cleared (slept engine 2 used (clock w) f0))
                                (after_sleeps engine 2 used (set_fs f0 w))))
         ∨ (used = 3 ∧ quiet_before engine 2 (clock w) f0 3 ∧
            v = fallback_message ∧
            w' = log (Open W input_file true :: evs)
                     (after_sleeps engine 2 3 (set_fs f0 w)) ∧
            Open W output_file true ∉ evs))
  end.
Proof.
  unfold communicate_with_scala, try_except, bind. rewrite send_run.
  destruct (write_check input_file (fs w)) as [e|] eqn:Hw.
  { unfold st_error, emit, ret. by rewrite log_log. }
  set (f0 := sent user_input (fs w)).
  destruct (retry_loop_run 3 2 3 0 (log [Open W input_file true] (set_fs f0 w)))
    as (used & v & evs & w' & Hrun & Hsteps & Hcase); [done|].
  exists used, v, evs, w'. rewrite Hrun. split_and!; [done..|].
  destruct Hcase as [(k & Hk & -> & Hquiet & Hobs & ->)|(-> & Hquiet & -> & -> & Hclear)].
  - left. exists k. split_and!; try done.
    unfold log, set_fs, after_sleeps. simpl. by rewrite <- app_assoc.
  - right. split_and!; try done.
    unfold log, set_fs, after_sleeps. simpl. by rewrite <- app_assoc.
Qed.

(** C1: the call opens the request slot for writing before anything else;
    when that write goes through the slot holds the payload and a line
    terminator, and the call then makes [used] rounds, at least one and at
    most three, each a wait of 2 followed by a read of the response slot.
    It returns the value of the first round that obtains one, which is the
    non-empty trimmed text of the slot in that round, and the fixed message
    when all three rounds obtain none.  When the write is refused there is
    no round and the fixed message is returned.  (A round obtains a value
    when lines 37-43 run to their [return]; a round in which the read or the
    clear raises obtains none.) *)
Theorem communicate_with_scala_bounded_poll user_input w :
  ∃ v w' evs used,
    communicate_with_scala engine user_input w = Ret v w' ∧
    trace w' = trace w ++ evs ∧
    steps evs = Send :: concat (replicate used [Wait 2; Read]) ∧
    used ≤ 3 ∧
    clock w' = clock w + 2 * used ∧
    match write_check input_file (fs w) with
    | Some _ => used = 0 ∧ v = fallback_message
    | None =>
        let f0 := sent user_input (fs w) in
        files f0 !! input_file = Some (user_input +:+ Text.nl) ∧
        ((∃ k c, k < 3 ∧ used = S k ∧
                 quiet_before engine 2 (clock w) f0 k ∧
                 observed engine 2 (clock w) f0 k = Got v ∧
                 files (slept engine 2 (S k) (clock w) f0) !! output_file = Some c ∧
                 v = Text.strip c ∧ v ≠ "")
         ∨ (used = 3 ∧ quiet_before engine 2 (clock w) f0 3 ∧
            v = fallback_message))
    end.
Proof.
  pose proof (communicate_with_scala_run user_input w) as Hrun.
  destruct (write_check input_file (fs w)) as [e|].
  { exists fallback_message, (log [Open W input_file false;
              StError ("Error communicating with backend: " +:+ str_exn e)] w),
           [Open W input_file false;
            StError ("Error communicating with backend: " +:+ str_exn e)], 0.
    split_and!; [exact Hrun|reflexivity| |lia|simpl; lia|done|done].
    reflexivity. }
  destruct Hrun as (used & v & evs & w' & Hrun & Hsteps & Hcase).
  exists v, w', (Open W input_file true :: evs), used.
  assert (Hst : steps (Open W input_file true :: evs)
                = Send :: concat (replicate used [Wait 2; Read])).
  { change (Open W input_file true :: evs) with ([Open W input_file true] ++ evs).
    rewrite steps_app, Hsteps. reflexivity. }
  destruct Hcase as [(k & Hk & -> & Hquiet & Hobs & ->)|(-> & Hquiet & -> & -> & Hclear)].
  - split_and!; [done|done|done|lia|done|].
    split; [apply lookup_insert_eq|]. left.
    destruct (poll_got _ _ Hobs) as (c & Hc & Hv & Hne & _).
    exists k, c. by split_and!.
  - split_and!; [done|done|done|lia|done|].
    split; [apply lookup_insert_eq|]. by right.
Qed.

(** C9: the call always returns, and what it returns is a non-empty string:
    the fixed message, or the trimmed text that one of the three reads
    found in the response slot. *)
Theorem communicate_with_scala_nonempty user_input w :
  ∃ v w',
    communicate_with_scala engine user_input w = Ret v w' ∧
    v ≠ "" ∧
    (v = fallback_message
     ∨ ∃ k c, k < 3 ∧
         (files (slept engine 2 (S k) (clock w) (sent user_input (fs w)))
            !! output_file) = Some c ∧
         v = Text.strip c).
Proof.
  pose proof (communicate_with_scala_run user_input w) as Hrun.
  destruct (write_check input_file (fs w)) as [e|].
  { eexists _, _. split_and!; [exact Hrun|done|by left]. }
  destruct Hrun as (used & v & evs & w' & Hrun & Hsteps & Hcase).
  exists v, w'. split; [done|].
  destruct Hcase as [(k & Hk & -> & Hquiet & Hobs & ->)|(-> & Hquiet & -> & -> & Hclear)].
  - apply poll_got in Hobs as (c & Hc & -> & Hne & _).
    split; [done|]. right. by exists k, c.
  - split; [done|]. by left.
Qed.

(** C10: on the timeout path (the request was written and none of the three
    rounds obtains a value) the call returns the fixed message without one
    successful write of the response slot: the file system it leaves is the
    one the three sleeps produced from the written request.  And a call
    that starts while the slot holds a response, which the engine leaves
    there during the first wait, returns that response. *)
Theorem timeout_leaves_response_slot user_input w :
  write_check input_file (fs w) = None →
  quiet_before engine 2 (clock w) (sent user_input (fs w)) 3 →
  (∃ w' evs,
     communicate_with_scala engine user_input w = Ret fallback_message w' ∧
     trace w' = trace w ++ evs ∧
     (Open W output_file true ∉ evs) ∧
     fs w' = slept engine 2 3 (clock w) (sent user_input (fs w))) ∧
  (∀ next_input w2 late,
     write_check input_file (fs w2) = None →
     poll (fs w2) = Got late →
     poll (engine (clock w2) (sent next_input (fs w2))) = poll (fs w2) →
     ∃ w3, communicate_with_scala engine next_input w2 = Ret late w3).
Proof.
  intros Hw Hquiet. split.
  - pose proof (communicate_with_scala_run user_input w) as Hrun.
    rewrite Hw in Hrun.
    destruct Hrun as (used & v & evs & w' & Hrun & Hsteps & Hcase).
    destruct Hcase as [(k & Hk & -> & _ & Hobs & ->)|(-> & _ & -> & -> & Hclear)].
    { by destruct (Hquiet k Hk v). }
    eexists _, (Open W input_file true :: evs). split_and!; [done|done| |done].
    rewrite elem_of_cons. intros [[=]|Hin]. by apply Hclear.
  - intros next_input w2 late Hw2 Hlate Hkeep.
    pose proof (communicate_with_scala_run next_input w2) as Hrun.
    rewrite Hw2 in Hrun.
    destruct Hrun as (used & v & evs & w' & Hrun & Hsteps & Hcase).
    assert (Hfirst : observed engine 2 (clock w2) (sent next_input (fs w2)) 0 = Got late).
    { unfold observed. simpl. by rewrite Hkeep. }
    destruct Hcase as [(k & Hk & -> & Hq & Hobs & ->)|(-> & Hq & -> & -> & Hclear)].
    + destruct k as [|k].
      * rewrite Hfirst in Hobs. injection Hobs as <-. eauto.
      * by destruct (Hq 0 ltac:(lia) late).
    + by destruct (Hq 0 ltac:(lia) late).
Qed.

End Channel.

(** ** The conversation store *)

Lemma string_app_nil_r s : s +:+ "" = s.
Proof.
  induction s as [|c s IH]; [done|].
  change (String c (s +:+ "") = String c s). by rewrite IH.
Qed.

Lemma string_app_assoc s t u : (s +:+ t) +:+ u = s +:+ t +:+ u.
Proof.
  induction s as [|c s IH]; [done|].
  change (String c ((s +:+ t) +:+ u) = String c (s +:+ t +:+ u)). by rewrite IH.
Qed.

Global Instance extends_preorder : PreOrder extends.
Proof.
  split.
  - by intros f.
  - intros f1 f2 f3 [Hf12 Hd12] [Hf23 Hd23]. split; by etrans.
Qed.

Global Instance grows_preorder path : PreOrder (grows path).
Proof.
  split.
  - intros f c Hc. exists "". by rewrite string_app_nil_r.
  - intros f1 f2 f3 H12 H23 c Hc.
    destruct (H12 c Hc) as [s Hs]. destruct (H23 _ Hs) as [s' Hs'].
    exists (s +:+ s'). by rewrite <- string_app_assoc.
Qed.

Lemma extends_grows path f f' : extends f f' → grows path f f'.
Proof.
  intros [Hf _] c Hc. exists "". rewrite string_app_nil_r.
  by eapply lookup_weaken.
Qed.

Lemma always_ret {T} (rel : relation FS) `{!Reflexive rel} (v : T) : always rel (ret v).
Proof. by intros w. Qed.

Lemma always_bind {T U} (rel : relation FS) `{!Transitive rel} (m : Py T) (k : T → Py U) :
  always rel m → (∀ v, always rel (k v)) → always rel (bind m k).
Proof.
  intros Hm Hk w. unfold bind. specialize (Hm w).
  destruct (m w) as [v w'|e w']; simpl in *; [|done].
  etrans; [done|apply Hk].
Qed.

Lemma always_emit (rel : relation FS) `{!Reflexive rel} e : always rel (emit e).
Proof. by intros w. Qed.

Lemma bind_Ret {T U} (m : Py T) (k : T → Py U) w v w' :
  bind m k w = Ret v w' → ∃ u w1, m w = Ret u w1 ∧ k u w1 = Ret v w'.
Proof. unfold bind. destruct (m w) as [u w1|e w1]; [eauto|done]. Qed.

Lemma join_conversations n : os.join conversations_dir n = conversations_dir +:+ n.
Proof. reflexivity. Qed.

Lemma child_name_conversations n :
  os.child_name conversations_dir (conversations_dir +:+ n) =
  if Text.truthy n && negb (Text.contains "/" n) then Some n else None.
Proof. reflexivity. Qed.

Lemma file_names_complete n f :
  is_Some (files f !! (conversations_dir +:+ n)) →
  Text.truthy n = true → Text.contains "/" n = false →
  n ∈ file_names conversations_dir f.
Proof.
  intros [c Hc] Ht Hs. unfold file_names. apply list_elem_of_filter. split.
  - rewrite join_conversations. unfold os.isfile.
    apply bool_decide_pack. by exists c.
  - unfold os.entries. apply elem_of_app. left.
    apply list_elem_of_omap. exists (conversations_dir +:+ n). split.
    + apply list_elem_of_fmap. exists (conversations_dir +:+ n, c).
      split; [done|]. by apply elem_of_map_to_list.
    + by rewrite child_name_conversations, Ht, Hs.
Qed.

Lemma list_remove_first_other x y l :
  y ∈ l → y ≠ x → y ∈ list_remove_first x l.
Proof.
  intros Hin Hne. induction l as [|z l IH]; [done|]. simpl.
  apply elem_of_cons in Hin as [->|Hin].
  - rewrite decide_False by done. apply elem_of_cons. by left.
  - destruct (decide (x = z)); [done|]. apply elem_of_cons. right. by apply IH.
Qed.

Lemma conversation_logs_complete n f :
  is_Some (files f !! (conversations_dir +:+ n)) →
  Text.truthy n = true → Text.contains "/" n = false → n ≠ "currentchat.txt" →
  n ∈ conversation_logs f.
Proof.
  intros Hn Ht Hs Hne. unfold conversation_logs.
  pose proof (file_names_complete n f Hn Ht Hs) as Hin.
  case_bool_decide; [|done]. by apply list_remove_first_other.
Qed.

(** When no log is listed, the default log does not exist. *)
Lemma no_logs_no_default f :
  length (conversation_logs f) = 0 →
  files f !! (conversations_dir +:+ "chathistory_0.txt") = None.
Proof.
  intros Hlen. destruct (files f !! _) as [c|] eqn:Hc; [|done].
  assert (Hin : "chathistory_0.txt" ∈ conversation_logs f).
  { apply conversation_logs_complete; [by exists c|done..]. }
  destruct (conversation_logs f); [by apply elem_of_nil in Hin|done].
Qed.

Lemma list_files_in_folder_run folder w :
  list_files_in_folder folder w =
  if bool_decide (folder ∈ dirs (fs w)) then Ret (file_names folder (fs w)) w
  else if os.isfile folder (fs w) then Raise (NotADirectoryError folder) w
       else Raise (FileNotFoundError folder) w.
Proof.
  unfold list_files_in_folder, listdir, bind, get_fs.
  case_bool_decide; [done|]. by destruct (os.isfile folder (fs w)).
Qed.

Lemma exists_false path f :
  os.exists_ path f = false → (path ∉ dirs f) ∧ files f !! path = None.
Proof.
  unfold os.exists_. intros [Hd Hf]%orb_false_elim.
  apply bool_decide_eq_false in Hd, Hf. split; [done|].
  destruct (files f !! path) eqn:E; [|done]. destruct Hf. eauto.
Qed.

Lemma extends_create path data f :
  files f !! path = None → extends f (set_files <[path := data]> f).
Proof. intros Hnone. split; [by apply insert_subseteq|done]. Qed.

Lemma always_makedirs_if_missing path :
  always extends (if_not_exists path (makedirs path)).
Proof.
  intros w. unfold if_not_exists, makedirs, bind, get_fs.
  destruct (os.exists_ path (fs w)); [done|].
  case_bool_decide; [done|]. simpl. split; [done|]. set_solver.
Qed.

Lemma always_create_if_missing path data :
  always extends (if_not_exists path (write_file path data)).
Proof.
  intros w. unfold if_not_exists.
  destruct (os.exists_ path (fs w)) eqn:He; [done|].
  apply exists_false in He as [_ Hnone].
  rewrite write_file_run. destruct (write_check path (fs w)); [done|].
  simpl. by apply extends_create.
Qed.

(** [ensure_initialized], after its two guarded creations. *)
Lemma ensure_initialized_tail w :
  (do listed <- list_files_in_folder conversations_dir;
   let conversation_files :=
     if bool_decide ("currentchat.txt" ∈ listed)
     then list_remove_first "currentchat.txt" listed else listed in
   do conversation_files <-
     (if length conversation_files =? 0
      then write_file (conversations_dir +:+ "chathistory_0.txt") "" ;;;
           ret ["chathistory_0.txt"]
      else ret conversation_files);
   do content <- read_file (conversations_dir +:+ "currentchat.txt");
   let current_chat := Text.strip (Text.readline content) in
   ret (conversation_files, current_chat)) w =
  if bool_decide (conversations_dir ∈ dirs (fs w)) then
    (do conversation_files <-
       (λ w, if length (conversation_logs (fs w)) =? 0
             then match write_check (conversations_dir +:+ "chathistory_0.txt") (fs w) with
                  | None =>
                      Ret ["chathistory_0.txt"]
                          (log [Open W (conversations_dir +:+ "chathistory_0.txt") true]
                               (set_fs (set_files
                                          <[conversations_dir +:+ "chathistory_0.txt" := ""]>
                                          (fs w)) w))
                  | Some e =>
                      Raise e (log [Open W (conversations_dir +:+ "chathistory_0.txt") false] w)
                  end
             else Ret (conversation_logs (fs w)) w);
     do content <- read_file (conversations_dir +:+ "currentchat.txt");
     ret (conversation_files, Text.strip (Text.readline content))) w
  else if os.isfile conversations_dir (fs w)
       then Raise (NotADirectoryError conversations_dir) w
       else Raise (FileNotFoundError conversations_dir) w.
Proof.
  unfold bind at 1. rewrite list_files_in_folder_run.
  case_bool_decide; [|by destruct (os.isfile conversations_dir (fs w))].
  unfold bind, conversation_logs. cbv zeta.
  destruct (length _ =? 0); [|done].
  rewrite write_file_run.
  by destruct (write_check (conversations_dir +:+ "chathistory_0.txt") (fs w)).
Qed.

Lemma ensure_initialized_extends : always extends ensure_initialized.
Proof.
  unfold ensure_initialized.
  apply always_bind; [apply _|apply always_makedirs_if_missing|intros _].
  apply always_bind; [apply _|apply always_create_if_missing|intros _].
  intros w. rewrite ensure_initialized_tail.
  case_bool_decide; [|by destruct (os.isfile conversations_dir (fs w))].
  clear H. unfold bind.
  destruct (length (conversation_logs (fs w)) =? 0) eqn:Hlen.
  - apply Nat.eqb_eq, no_logs_no_default in Hlen.
    destruct (write_check _ (fs w)); [done|].
    rewrite read_file_run.
    destruct (read_check _ _); simpl; by apply extends_create.
  - rewrite read_file_run. by destruct (read_check _ _).
Qed.

(** In a world where the store area is a directory, the pointer can be read
    and a log is listed, [ensure_initialized] changes nothing and returns
    the trimmed first line of the pointer. *)
Lemma ensure_initialized_ready w content :
  conversations_dir ∈ dirs (fs w) →
  read_check (conversations_dir +:+ "currentchat.txt") (fs w) = inr content →
  conversation_logs (fs w) ≠ [] →
  ensure_initialized w =
  Ret (conversation_logs (fs w), Text.strip (Text.readline content))
      (log [Open R (conversations_dir +:+ "currentchat.txt") true] w).
Proof.
  intros Hdir Hread Hlogs. unfold ensure_initialized.
  unfold bind at 1. unfold if_not_exists at 1.
  assert (os.exists_ conversations_dir (fs w) = true) as ->.
  { unfold os.exists_. by rewrite bool_decide_eq_true_2. }
  unfold bind at 1. unfold if_not_exists at 1.
  assert (os.exists_ (conversations_dir +:+ "currentchat.txt") (fs w) = true) as ->.
  { unfold os.exists_. apply orb_true_intro. right.
    apply bool_decide_eq_true_2. apply read_check_inr in Hread. eauto. }
  rewrite ensure_initialized_tail, bool_decide_eq_true_2 by done.
  unfold bind.
  destruct (length (conversation_logs (fs w)) =? 0) eqn:Hlen.
  { apply Nat.eqb_eq in Hlen. by destruct (conversation_logs (fs w)). }
  by rewrite read_file_run, Hread.
Qed.

Lemma guarded_makedirs_session path u w w' :
  if_not_exists path (makedirs path) w = Ret u w' → same_session w w'.
Proof.
  unfold if_not_exists, makedirs, bind, get_fs.
  destruct (os.exists_ path (fs w)); [by intros [= _ <-]|].
  case_bool_decide; [done|]. by intros [= _ <-].
Qed.

Lemma guarded_write_session path data u w w' :
  if_not_exists path (write_file path data) w = Ret u w' → same_session w w'.
Proof.
  unfold if_not_exists. destruct (os.exists_ path (fs w)); [by intros [= _ <-]|].
  rewrite write_file_run. destruct (write_check path (fs w)); [done|].
  by intros [= _ <-].
Qed.

(** What a completed [ensure_initialized] leaves behind. *)
Lemma ensure_initialized_inv w conversation_files current_chat w1 :
  ensure_initialized w = Ret (conversation_files, current_chat) w1 →
  conversations_dir ∈ dirs (fs w1) ∧
  conversation_logs (fs w1) ≠ [] ∧
  same_session w w1 ∧
  ∃ content,
    read_check (conversations_dir +:+ "currentchat.txt") (fs w1) = inr content ∧
    current_chat = Text.strip (Text.readline content).
Proof.
  unfold ensure_initialized.
  intros (ua & wa & [Hca Hsa]%guarded_makedirs_session & Hrest)%bind_Ret.
  apply bind_Ret in Hrest as (ub & wb & [Hcb Hsb]%guarded_write_session & Hrest).
  rewrite ensure_initialized_tail in Hrest.
  case_bool_decide as Hdir; [|by destruct (os.isfile conversations_dir (fs wb))].
  apply bind_Ret in Hrest as (cf & wc & Hc & Hrest).
  apply bind_Ret in Hrest as (content & wd & Hd & Hrest).
  injection Hrest as <- <- <-.
  rewrite read_file_run in Hd.
  destruct (read_check _ (fs wc)) as [e|c] eqn:Hread; [done|].
  injection Hd as <- <-. simpl.
  assert (Hwc : conversations_dir ∈ dirs (fs wc) ∧ conversation_logs (fs wc) ≠ []
                ∧ same_session wb wc).
  { destruct (length (conversation_logs (fs wb)) =? 0) eqn:Hlen.
    - destruct (write_check _ (fs wb)); [done|]. injection Hc as <- <-. simpl.
      split_and!; [done| |done].
      assert (Hin : "chathistory_0.txt" ∈
                    conversation_logs (set_files <[conversations_dir +:+ "chathistory_0.txt" := ""]>
                                                 (fs wb))).
      { apply conversation_logs_complete; [|done..].
        simpl. rewrite lookup_insert_eq. eauto. }
      intros Hnil. rewrite Hnil in Hin. by apply elem_of_nil in Hin.
    - injection Hc as <- <-. split_and!; [done| |done].
      apply Nat.eqb_neq in Hlen. by destruct (conversation_logs (fs wb)). }
  destruct Hwc as (Hd' & Hl' & Hcc & Hsc).
  split_and!; [done|done| |by exists c].
  unfold same_session. simpl. split; congruence.
Qed.

(** C6: after a run of the store initialisation that completed, a second run
    completes as well, returns the same pointer value and leaves the file
    system exactly as the first run left it; and the first run kept every
    file and directory that existed before it, with its text. *)
Theorem ensure_initialized_idempotent w conversation_files current_chat w1 :
  ensure_initialized w = Ret (conversation_files, current_chat) w1 →
  (∃ conversation_files' w2,
     ensure_initialized w1 = Ret (conversation_files', current_chat) w2 ∧
     fs w2 = fs w1) ∧
  extends (fs w) (fs w1).
Proof.
  intros Hrun. split.
  - apply ensure_initialized_inv in Hrun as (Hdir & Hlogs & _ & content & Hread & ->).
    eexists _, _. split; [by apply ensure_initialized_ready|done].
  - pose proof (ensure_initialized_extends w) as Hext. by rewrite Hrun in Hext.
Qed.

Lemma chat_memory_append_run x mem w :
  session_state w !! "chat_memory" = Some (PyList mem) →
  chat_memory_append x w =
  Ret tt (mkWorld (fs w) (clock w) (trace w)
                  (<["chat_memory" := PyList (mem ++ [x])]> (session_state w))).
Proof. intros Hm. unfold chat_memory_append. by rewrite Hm. Qed.

Lemma always_session_default (rel : relation FS) `{!Reflexive rel} key v :
  always rel (session_default key v).
Proof. intros w. unfold session_default. by destruct (session_state w !! key). Qed.

Lemma always_chat_memory (rel : relation FS) `{!Reflexive rel} : always rel chat_memory.
Proof.
  intros w. unfold chat_memory.
  by destruct (session_state w !! "chat_memory") as [[|l]|].
Qed.

Lemma always_chat_memory_append (rel : relation FS) `{!Reflexive rel} x :
  always rel (chat_memory_append x).
Proof.
  intros w. unfold chat_memory_append.
  by destruct (session_state w !! "chat_memory") as [[|l]|].
Qed.

Lemma always_for_each {T} (rel : relation FS) `{!PreOrder rel} (l : list T) body :
  (∀ x, always rel (body x)) → always rel (for_each l body).
Proof.
  intros Hbody. induction l as [|x l IH]; simpl.
  - apply always_ret; apply _.
  - apply always_bind; [apply _|apply Hbody|done].
Qed.

Lemma always_append_file path p data : always (grows p) (append_file path data).
Proof.
  intros w. rewrite append_file_run. destruct (write_check path (fs w)); [done|].
  simpl. intros c Hc. destruct (decide (path = p)) as [->|Hne].
  - exists data. simpl. by rewrite lookup_insert_eq, Hc.
  - exists "". simpl. by rewrite lookup_insert_ne, string_app_nil_r.
Qed.

Section Orchestrator.

Variable engine : nat → FS → FS.

Lemma slept_files d path :
  (∀ t f, files (engine t f) !! path = files f !! path) →
  ∀ n t f, files (slept engine d n t f) !! path = files f !! path.
Proof.
  intros Hkeep. induction n as [|n IH]; intros t f; simpl; [done|].
  by rewrite IH.
Qed.

Lemma slept_write_check d path :
  untouched engine path →
  ∀ n t f, write_check path (slept engine d n t f) = write_check path f.
Proof.
  intros Hkeep. induction n as [|n IH]; intros t f; simpl; [done|].
  rewrite IH. apply Hkeep.
Qed.

(** An engine that leaves the response slot alone, started on a slot
    without a response, lets no attempt obtain a value. *)
Lemma silent_quiet d t f k :
  (∀ t f, files (engine t f) !! output_file = files f !! output_file) →
  Text.strip (slot_text f) = "" →
  quiet_before engine d t f k.
Proof.
  intros Hkeep Hempty i _ v Hobs.
  apply poll_got in Hobs as (c & Hc & -> & Hne & _).
  rewrite slept_files in Hc by done.
  unfold slot_text in Hempty. by rewrite Hc in Hempty.
Qed.

(** The file system that [communicate_with_scala] leaves. *)
Lemma communicate_with_scala_fs user_input w :
  ∃ v w', communicate_with_scala engine user_input w = Ret v w' ∧
          session_state w' = session_state w ∧
          (fs w' = fs w
           ∨ ∃ used, fs w' = slept engine 2 used (clock w) (sent user_input (fs w))
                     ∨ fs w' = cleared (slept engine 2 used (clock w)
                                              (sent user_input (fs w)))).
Proof.
  pose proof (communicate_with_scala_run engine user_input w) as Hrun.
  destruct (write_check input_file (fs w)) as [e|].
  { eexists _, _. split; [exact Hrun|]. split; [done|by left]. }
  destruct Hrun as (used & v & evs & w' & Hrun & _ & Hcase).
  exists v, w'. split; [done|].
  destruct Hcase as [(k & _ & -> & _ & _ & ->)|(-> & _ & _ & -> & _)].
  - split; [done|]. right. exists (S k). by right.
  - split; [done|]. right. exists 3. by left.
Qed.

Lemma communicate_with_scala_frame path user_input w v w' :
  path ≠ input_file → path ≠ output_file →
  (∀ t f, files (engine t f) !! path = files f !! path) →
  communicate_with_scala engine user_input w = Ret v w' →
  files (fs w') !! path = files (fs w) !! path.
Proof.
  intros Hin Hout Hkeep Hrun.
  destruct (communicate_with_scala_fs user_input w) as (v0 & w0 & Hrun0 & _ & Hfs).
  rewrite Hrun in Hrun0. injection Hrun0 as <- <-.
  destruct Hfs as [->|[used [->| ->]]]; [done| |].
  - rewrite slept_files by done. simpl. by rewrite lookup_insert_ne.
  - simpl. rewrite lookup_insert_ne by done. rewrite slept_files by done.
    simpl. by rewrite lookup_insert_ne.
Qed.

Lemma always_communicate_with_scala path user_input :
  path ≠ input_file → path ≠ output_file →
  (∀ t f, files (engine t f) !! path = files f !! path) →
  always (grows path) (communicate_with_scala engine user_input).
Proof.
  intros Hin Hout Hkeep w.
  destruct (communicate_with_scala_fs user_input w) as (v & w' & Hrun & _).
  rewrite Hrun. simpl. intros c Hc. exists "".
  rewrite string_app_nil_r, <- Hc. by eapply communicate_with_scala_frame.
Qed.

Lemma ask_run current_chat q w v w1 mem :
  q ≠ "" →
  communicate_with_scala engine q w = Ret v w1 →
  session_state w1 !! "chat_memory" = Some (PyList mem) →
  ask engine current_chat (Some q) w =
  append_file (conversations_dir +:+ current_chat) (q +:+ Text.nl)
              (remembered q v mem w1).
Proof.
  intros Hq Hrun Hmem. unfold ask. apply truthy_true in Hq as ->.
  unfold bind at 1. rewrite Hrun.
  unfold bind, chat_message_write, emit.
  rewrite (chat_memory_append_run _ mem) by done.
  unfold remembered, log. simpl. by rewrite <- app_assoc.
Qed.

Lemma always_ask path current_chat user_question :
  path ≠ input_file → path ≠ output_file →
  (∀ t f, files (engine t f) !! path = files f !! path) →
  always (grows path) (ask engine current_chat user_question).
Proof.
  intros Hin Hout Hkeep. unfold ask.
  destruct user_question as [q|]; [|apply always_ret; apply _].
  destruct (Text.truthy q); [|apply always_ret; apply _].
  apply always_bind; [apply _|by apply always_communicate_with_scala|intros v].
  apply always_bind; [apply _|apply always_emit; apply _|intros _].
  apply always_bind; [apply _|apply always_emit; apply _|intros _].
  apply always_bind; [apply _|apply always_chat_memory_append; apply _|intros _].
  apply always_append_file.
Qed.

Lemma always_main path pg user_question :
  path ≠ input_file → path ≠ output_file →
  (∀ t f, files (engine t f) !! path = files f !! path) →
  always (grows path) (main engine pg user_question).
Proof.
  intros Hin Hout Hkeep. unfold main. destruct pg; [|apply always_ret; apply _].
  apply always_bind; [apply _|apply always_session_default; apply _|intros _].
  apply always_bind; [apply _|apply always_session_default; apply _|intros _].
  apply always_bind; [apply _| |intros init].
  { intros w. apply extends_grows, ensure_initialized_extends. }
  apply always_bind; [apply _|apply always_chat_memory; apply _|intros memory].
  apply always_bind; [apply _| |intros _; by apply always_ask].
  apply always_for_each; [apply _|]. intros x.
  apply always_bind; [apply _|apply always_emit; apply _|intros _].
  apply always_emit; apply _.
Qed.

Lemma chat_memory_append_Ret x u w w' :
  chat_memory_append x w = Ret u w' → fs w' = fs w.
Proof.
  unfold chat_memory_append.
  destruct (session_state w !! "chat_memory") as [[|l]|]; [done| |done].
  by intros [= _ <-].
Qed.

Lemma question_line_nonempty q : q +:+ Text.nl ≠ "".
Proof. by destruct q. Qed.

(** When the append to the log is refused, the exception leaves [ask]; the
    exchange is in the session memory by then. *)
Lemma ask_append_refused current_chat q w v w1 mem e :
  q ≠ "" →
  communicate_with_scala engine q w = Ret v w1 →
  session_state w !! "chat_memory" = Some (PyList mem) →
  write_check (conversations_dir +:+ current_chat) (fs w1) = Some e →
  ask engine current_chat (Some q) w =
  Raise e (log [Open A (conversations_dir +:+ current_chat) false]
               (remembered q v mem w1)).
Proof.
  intros Hq Hrun Hmem Hlog.
  destruct (communicate_with_scala_fs q w) as (v0 & w0 & Hrun0 & Hss & _).
  rewrite Hrun in Hrun0. injection Hrun0 as <- <-.
  rewrite (ask_run _ _ _ _ _ mem Hq Hrun) by by rewrite Hss.
  rewrite append_file_run. simpl. by rewrite Hlog.
Qed.

(** C7: for a log that the engine leaves alone, a completed [ask] leaves
    the log with the question and a line terminator added at its end, so
    that the old text is a strict prefix of the new one; and whatever
    [main] does, and however it ends, the text the log had before is a
    prefix of the text it has afterwards. *)
Theorem conversation_log_append_only name :
  (∀ t f, files (engine t f) !! (conversations_dir +:+ name)
          = files f !! (conversations_dir +:+ name)) →
  (∀ q w w',
     q ≠ "" → ask engine name (Some q) w = Ret tt w' →
     let before := default "" (files (fs w) !! (conversations_dir +:+ name)) in
     files (fs w') !! (conversations_dir +:+ name) = Some (before +:+ q +:+ Text.nl) ∧
     before +:+ q +:+ Text.nl ≠ before) ∧
  (∀ pg user_question w,
     grows (conversations_dir +:+ name) (fs w)
           (fs (final_world (main engine pg user_question w)))).
Proof.
  intros Hkeep. split.
  - intros q w w' Hq Hask before. split; [|apply append_nonempty, question_line_nonempty].
    unfold ask in Hask. rewrite (proj2 (truthy_true q) Hq) in Hask.
    apply bind_Ret in Hask as (v & w1 & Hrun & Hask).
    apply bind_Ret in Hask as (u2 & w2 & [= _ <-] & Hask).
    apply bind_Ret in Hask as (u3 & w3 & [= _ <-] & Hask).
    apply bind_Ret in Hask as (u4 & w4 & Hmem%chat_memory_append_Ret & Hask).
    rewrite append_file_run in Hask.
    destruct (write_check _ (fs w4)); [done|]. injection Hask as <-.
    simpl. rewrite lookup_insert_eq, Hmem. simpl.
    rewrite (communicate_with_scala_frame _ _ _ _ _ (conversation_not_input name)
               (conversation_not_output name) Hkeep Hrun).
    done.
  - intros pg user_question w.
    by apply always_main;
      [apply conversation_not_input|apply conversation_not_output|].
Qed.

(** C8: when the request slot cannot be written, [communicate_with_scala]
    shows the error and returns the fixed message without waiting; [ask]
    goes on: the exchange with the fixed message is shown and appended to
    the session memory, and when the log can be appended to, [ask] returns
    with the question in the log. *)
Theorem ask_continues_after_send_failure current_chat q w mem e :
  q ≠ "" →
  session_state w !! "chat_memory" = Some (PyList mem) →
  write_check input_file (fs w) = Some e →
  let shown := [Open W input_file false;
                StError ("Error communicating with backend: " +:+ str_exn e)] in
  let log_file := conversations_dir +:+ current_chat in
  let w' := final_world (ask engine current_chat (Some q) w) in
  communicate_with_scala engine q w = Ret fallback_message (log shown w) ∧
  session_state w' !! "chat_memory"
    = Some (PyList (mem ++ [mkInteraction q fallback_message])) ∧
  (∃ evs, trace w' = trace w ++ shown ++ [ChatMessage USER q;
                                          ChatMessage ASSISTANT fallback_message] ++ evs) ∧
  clock w' = clock w ∧
  (write_check log_file (fs w) = None →
   ask engine current_chat (Some q) w = Ret tt w' ∧
   files (fs w') !! log_file
     = Some (default "" (files (fs w) !! log_file) +:+ q +:+ Text.nl)).
Proof.
  intros Hq Hmem Hw shown log_file w'.
  pose proof (communicate_with_scala_run engine q w) as Hrun. rewrite Hw in Hrun.
  fold shown in Hrun.
  assert (Hask : ask engine current_chat (Some q) w =
                 append_file log_file (q +:+ Text.nl)
                             (remembered q fallback_message mem (log shown w))).
  { by apply ask_run. }
  unfold w'. rewrite Hask, append_file_run. simpl.
  destruct (write_check log_file (fs w)) as [e'|] eqn:Hlog; simpl.
  - split_and!; [done|apply lookup_insert_eq| |done|done].
    exists [Open A log_file false]. by rewrite <- !app_assoc.
  - split_and!; [done|apply lookup_insert_eq| |done|].
    + exists [Open A log_file true]. by rewrite <- !app_assoc.
    + intros _. split; [done|]. apply lookup_insert_eq.
Qed.

(** C5: a question asked while the engine leaves the response slot alone,
    the slot holding no response, is answered with the fixed message after
    the request was written and the slot was waited for and read three
    times; the exchange is appended to the session memory, which grows by
    one, and the question and a line terminator are appended to the
    current log. *)
Theorem ask_without_response current_chat q w mem :
  q ≠ "" →
  session_state w !! "chat_memory" = Some (PyList mem) →
  write_check input_file (fs w) = None →
  (∀ t f, files (engine t f) !! output_file = files f !! output_file) →
  Text.strip (slot_text (fs w)) = "" →
  untouched engine (conversations_dir +:+ current_chat) →
  write_check (conversations_dir +:+ current_chat) (fs w) = None →
  let log_file := conversations_dir +:+ current_chat in
  ∃ w' evs,
    ask engine current_chat (Some q) w = Ret tt w' ∧
    session_state w' !! "chat_memory"
      = Some (PyList (mem ++ [mkInteraction q fallback_message])) ∧
    length (mem ++ [mkInteraction q fallback_message]) = S (length mem) ∧
    trace w' = trace w ++ evs ∧
    steps evs = [Send; Wait 2; Read; Wait 2; Read; Wait 2; Read] ∧
    ChatMessage ASSISTANT fallback_message ∈ evs ∧
    clock w' = clock w + 6 ∧
    files (fs w') !! log_file
      = Some (default "" (files (fs w) !! log_file) +:+ q +:+ Text.nl).
Proof.
  intros Hq Hmem Hw Hslot Hempty Hlog Hlogw log_file.
  assert (Hquiet : quiet_before engine 2 (clock w) (sent q (fs w)) 3).
  { apply silent_quiet; [exact Hslot|].
    unfold slot_text, sent. simpl.
    by rewrite lookup_insert_ne by apply input_output_distinct. }
  pose proof (communicate_with_scala_run engine q w) as Hrun. rewrite Hw in Hrun.
  destruct Hrun as (used & v & evs & w1 & Hrun & Hsteps & Hcase).
  destruct Hcase as [(k & Hk & -> & _ & Hobs & ->)|(-> & _ & -> & -> & _)].
  { by destruct (Hquiet k Hk v). }
  set (w1 := log (Open W input_file true :: evs)
                 (after_sleeps engine 2 3 (set_fs (sent q (fs w)) w))) in *.
  rewrite (ask_run _ _ _ _ _ mem Hq Hrun) by done.
  set (w2 := remembered q fallback_message mem w1).
  assert (Hfs2 : fs w2 = slept engine 2 3 (clock w) (sent q (fs w))) by done.
  assert (Hwc : write_check log_file (fs w2) = None).
  { rewrite Hfs2, slept_write_check by done. exact Hlogw. }
  assert (Hfl : files (fs w2) !! log_file = files (fs w) !! log_file).
  { rewrite Hfs2, slept_files by (intros t f; apply Hlog).
    apply lookup_insert_ne, not_eq_sym, conversation_not_input. }
  rewrite append_file_run. fold log_file. rewrite Hwc.
  eexists _, (Open W input_file true :: evs
              ++ [ChatMessage USER q; ChatMessage ASSISTANT fallback_message]
              ++ [Open A log_file true]).
  split_and!; [done|apply lookup_insert_eq| | | | | |].
  - rewrite length_app. simpl. lia.
  - unfold w2, w1, log, remembered, set_fs. cbn [trace].
    by rewrite <- !app_assoc.
  - change (Open W input_file true :: ?l) with ([Open W input_file true] ++ l).
    by rewrite !steps_app, Hsteps.
  - rewrite elem_of_cons, !elem_of_app. right. right. left.
    rewrite !elem_of_cons. by right; left.
  - unfold w2, w1, log, remembered, set_fs, after_sleeps. cbn [clock]. lia.
  - rewrite <- Hfl. apply lookup_insert_eq.
Qed.

End Orchestrator.

(** ** The statements at sample worlds *)

(** The engine answers within the first wait: the exchange carries the
    trimmed answer, the session memory grows from 0 to 1, and one round was
    enough. *)
Example engine_answers_in_time :
  let o := main (answering 0 (" Inception (2010) is a sci-fi thriller." +:+ Text.nl))
                ChatInterface (Some "What is Inception?") (fresh store_ready) in
  exception_of o = None ∧
  session_state (final_world o) !! "chat_memory"
    = Some (PyList [mkInteraction "What is Inception?"
                                  "Inception (2010) is a sci-fi thriller."]) ∧
  clock (final_world o) = 2 ∧
  files (fs (final_world o)) !! output_file = Some "".
Proof. vm_compute. by split_and!. Qed.

(** No store area at start-up: it is created with the pointer and an empty
    default log, and the question is appended to that log. *)
Example store_created_on_first_run :
  let o := main idle ChatInterface (Some "Who directed Jaws?") (fresh empty_fs) in
  exception_of o = None ∧
  conversations_dir ∈ dirs (fs (final_world o)) ∧
  files (fs (final_world o)) !! "conversations/currentchat.txt"
    = Some "chathistory_0.txt" ∧
  files (fs (final_world o)) !! "conversations/chathistory_0.txt"
    = Some ("Who directed Jaws?" +:+ Text.nl).
Proof. vm_compute. by split_and!. Qed.

(** A response slot that can be read but not cleared: no round obtains the
    value, the fixed message is returned and the text stays in the slot. *)
Example response_slot_not_clearable :
  let o := communicate_with_scala idle "What is Inception?"
                                  (session_started read_only_response) in
  (∃ w', o = Ret fallback_message w') ∧
  files (fs (final_world o)) !! output_file
    = Some (" Inception (2010) is a sci-fi thriller." +:+ Text.nl).
Proof. vm_compute. split; [eauto|done]. Qed.

(** C2: with a log that cannot be written, [main] ends in the exception that
    [open] raised.  The exchange is in the session memory, and nothing was
    shown to the user about the failure: the last event is the refused open,
    and no [StError] precedes it. *)
Theorem append_failure_escapes_main :
  let o := main idle ChatInterface (Some "Who directed Jaws?") (fresh read_only_log) in
  exception_of o = Some (PermissionError "conversations/chathistory_0.txt") ∧
  session_state (final_world o) !! "chat_memory"
    = Some (PyList [mkInteraction "Who directed Jaws?" fallback_message]) ∧
  trace (final_world o)
    = [Open R "conversations/currentchat.txt" true;
       Open W input_file true;
       Sleep 2; Open R output_file true;
       Sleep 2; Open R output_file true;
       Sleep 2; Open R output_file true;
       ChatMessage USER "Who directed Jaws?";
       ChatMessage ASSISTANT fallback_message;
       Open A "conversations/chathistory_0.txt" false].
Proof. vm_compute. by split_and!. Qed.

Lemma try_receive_consumes_witness :
  let w := session_started response_waiting in
  let w' := final_world (try_receive w) in
  try_receive w = Ret (Some "Inception (2010) is a sci-fi thriller.") w' ∧
  files (fs w') !! output_file = Some "" ∧
  try_receive w' = Ret None (log [Open R output_file true] w') ∧
  try_receive (session_started store_ready)
    = Ret None (log [Open R output_file true] (session_started store_ready)).
Proof.
  intros w w'.
  assert (Hrun : try_receive w = Ret (Some "Inception (2010) is a sci-fi thriller.") w').
  { vm_compute. reflexivity. }
  destruct (try_receive_consumes w) as [Hgot _].
  destruct (Hgot _ _ Hrun) as (_ & Hcleared & Hagain).
  destruct (try_receive_consumes (session_started store_ready)) as [_ Hempty].
  split_and!; [exact Hrun|exact Hcleared|exact Hagain|].
  apply (Hempty ""); reflexivity.
Defined.

Lemma send_then_receive_not_stale_witness :
  let w := session_started response_waiting in
  let w1 := final_world (try_receive w) in
  try_receive w = Ret (Some "Inception (2010) is a sci-fi thriller.") w1 ∧
  let w2 := final_world (send "Who directed Jaws?" w1) in
  files (fs w2) !! output_file = Some "" ∧
  try_receive w2 = Ret None (log [Open R output_file true] w2).
Proof.
  intros w w1.
  assert (Hrun : try_receive w = Ret (Some "Inception (2010) is a sci-fi thriller.") w1).
  { vm_compute. reflexivity. }
  split; [exact Hrun|].
  exact (send_then_receive_not_stale "Who directed Jaws?" w _ w1 Hrun).
Defined.

Lemma idle_untouched path : untouched idle path.
Proof. intros t f. split; reflexivity. Defined.

Lemma ask_without_response_witness :
  let w := session_started store_ready in
  let log_file := conversations_dir +:+ "chathistory_0.txt" in
  ("Who directed Jaws?" ≠ "" ∧
   session_state w !! "chat_memory" = Some (PyList []) ∧
   write_check input_file (fs w) = None ∧
   (∀ t f, files (idle t f) !! output_file = files f !! output_file) ∧
   Text.strip (slot_text (fs w)) = "" ∧
   untouched idle log_file ∧
   write_check log_file (fs w) = None) ∧
  ∃ w' evs,
    ask idle "chathistory_0.txt" (Some "Who directed Jaws?") w = Ret tt w' ∧
    session_state w' !! "chat_memory"
      = Some (PyList ([] ++ [mkInteraction "Who directed Jaws?" fallback_message])) ∧
    length ([] ++ [mkInteraction "Who directed Jaws?" fallback_message]) = 1 ∧
    trace w' = trace w ++ evs ∧
    steps evs = [Send; Wait 2; Read; Wait 2; Read; Wait 2; Read] ∧
    ChatMessage ASSISTANT fallback_message ∈ evs ∧
    clock w' = clock w + 6 ∧
    files (fs w') !! log_file
      = Some (default "" (files (fs w) !! log_file) +:+ "Who directed Jaws?" +:+ Text.nl).
Proof.
  intros w log_file.
  assert (Hq : "Who directed Jaws?" ≠ "") by discriminate.
  assert (Hmem : session_state w !! "chat_memory" = Some (PyList [])) by reflexivity.
  assert (Hw : write_check input_file (fs w) = None) by reflexivity.
  assert (Hempty : Text.strip (slot_text (fs w)) = "") by reflexivity.
  assert (Hlog : write_check log_file (fs w) = None) by reflexivity.
  split.
  - split_and!; [exact Hq|exact Hmem|exact Hw|reflexivity|exact Hempty
                 |apply idle_untouched|exact Hlog].
  - exact (ask_without_response idle "chathistory_0.txt" "Who directed Jaws?" w []
             Hq Hmem Hw (λ t f, eq_refl) Hempty (idle_untouched _) Hlog).
Defined.

Lemma ensure_initialized_idempotent_witness :
  let w := fresh empty_fs in
  let w1 := final_world (ensure_initialized w) in
  ensure_initialized w = Ret (["chathistory_0.txt"], "chathistory_0.txt") w1 ∧
  (∃ conversation_files' w2,
     ensure_initialized w1 = Ret (conversation_files', "chathistory_0.txt") w2 ∧
     fs w2 = fs w1) ∧
  extends (fs w) (fs w1).
Proof.
  intros w w1.
  assert (Hrun : ensure_initialized w
                 = Ret (["chathistory_0.txt"], "chathistory_0.txt") w1).
  { vm_compute. reflexivity. }
  split; [exact Hrun|].
  exact (ensure_initialized_idempotent w _ _ w1 Hrun).
Defined.

Lemma conversation_log_append_only_witness :
  let name := "chathistory_0.txt" in
  let w := session_started store_ready in
  let w' := final_world (ask idle name (Some "Who directed Jaws?") w) in
  (∀ t f, files (idle t f) !! (conversations_dir +:+ name)
          = files f !! (conversations_dir +:+ name)) ∧
  ask idle name (Some "Who directed Jaws?") w = Ret tt w' ∧
  (let before := default "" (files (fs w) !! (conversations_dir +:+ name)) in
   files (fs w') !! (conversations_dir +:+ name)
     = Some (before +:+ "Who directed Jaws?" +:+ Text.nl) ∧
   before +:+ "Who directed Jaws?" +:+ Text.nl ≠ before) ∧
  (∀ pg user_question w0,
     grows (conversations_dir +:+ name) (fs w0)
           (fs (final_world (main idle pg user_question w0)))).
Proof.
  intros name w w'.
  assert (Hidle : ∀ t f, files (idle t f) !! (conversations_dir +:+ name)
                         = files f !! (conversations_dir +:+ name)) by reflexivity.
  assert (Hrun : ask idle name (Some "Who directed Jaws?") w = Ret tt w').
  { vm_compute. reflexivity. }
  destruct (conversation_log_append_only idle name Hidle) as [Happend Hmain].
  split_and!; [exact Hidle|exact Hrun| |exact Hmain].
  apply (Happend "Who directed Jaws?" w w'); [discriminate|exact Hrun].
Defined.

Lemma ask_continues_after_send_failure_witness :
  let w := session_started read_only_request in
  let e := PermissionError input_file in
  let shown := [Open W input_file false;
                StError ("Error communicating with backend: " +:+ str_exn e)] in
  let log_file := conversations_dir +:+ "chathistory_0.txt" in
  let w' := final_world (ask idle "chathistory_0.txt" (Some "Who directed Jaws?") w) in
  write_check input_file (fs w) = Some e ∧
  communicate_with_scala idle "Who directed Jaws?" w = Ret fallback_message (log shown w) ∧
  session_state w' !! "chat_memory"
    = Some (PyList ([] ++ [mkInteraction "Who directed Jaws?" fallback_message])) ∧
  ask idle "chathistory_0.txt" (Some "Who directed Jaws?") w = Ret tt w' ∧
  files (fs w') !! log_file
    = Some (default "" (files (fs w) !! log_file) +:+ "Who directed Jaws?" +:+ Text.nl).
Proof.
  intros w e shown log_file w'.
  assert (Hq : "Who directed Jaws?" ≠ "") by discriminate.
  assert (Hmem : session_state w !! "chat_memory" = Some (PyList [])) by reflexivity.
  assert (Hw : write_check input_file (fs w) = Some e) by reflexivity.
  assert (Hlog : write_check log_file (fs w) = None) by reflexivity.
  destruct (ask_continues_after_send_failure idle "chathistory_0.txt"
              "Who directed Jaws?" w [] e Hq Hmem Hw)
    as (Hrun & Hmemory & _ & _ & Hreturns).
  destruct (Hreturns Hlog) as [Hask Hfile].
  split_and!; [exact Hw|exact Hrun|exact Hmemory|exact Hask|exact Hfile].
Defined.

Lemma idle_quiet :
  quiet_before idle 2 0 (sent "Who directed Jaws?" store_ready) 3.
Proof.
  apply silent_quiet; [reflexivity|reflexivity].
Defined.

Lemma timeout_leaves_response_slot_witness :
  let w := session_started store_ready in
  let w2 := session_started response_waiting in
  (write_check input_file (fs w) = None ∧
   quiet_before idle 2 (clock w) (sent "Who directed Jaws?" (fs w)) 3) ∧
  (∃ w' evs,
     communicate_with_scala idle "Who directed Jaws?" w = Ret fallback_message w' ∧
     trace w' = trace w ++ evs ∧
     (Open W output_file true ∉ evs) ∧
     fs w' = slept idle 2 3 (clock w) (sent "Who directed Jaws?" (fs w))) ∧
  ∃ w3, communicate_with_scala idle "What is Inception?" w2
        = Ret "Inception (2010) is a sci-fi thriller." w3.
Proof.
  intros w w2.
  assert (Hw : write_check input_file (fs w) = None) by reflexivity.
  destruct (timeout_leaves_response_slot idle "Who directed Jaws?" w Hw idle_quiet)
    as [Htimeout Hlate].
  split_and!; [exact Hw|exact idle_quiet|exact Htimeout|].
  apply (Hlate "What is Inception?" w2); reflexivity.
Defined.

(** * Further properties *)

(** ** Listing a folder *)

Lemma strip_prefix_app p n : Text.strip_prefix p (p +:+ n) = Some n.
Proof.
  induction p as [|c p IH]; [by destruct n|].
  change (Text.strip_prefix (String c p) (String c (p +:+ n)) = Some n).
  simpl. by rewrite Ascii.eqb_refl.
Qed.

Lemma strip_prefix_Some p s n : Text.strip_prefix p s = Some n → s = p +:+ n.
Proof.
  revert s. induction p as [|c p IH]; intros s; simpl.
  - by intros [= ->].
  - destruct s as [|b s]; [done|].
    destruct (Ascii.eqb c b) eqn:Hcb; [|done].
    apply Ascii.eqb_eq in Hcb as ->. intros ->%IH. reflexivity.
Qed.

Lemma join_prefix folder n : os.join folder n = os.join folder "" +:+ n.
Proof.
  unfold os.join.
  destruct (Text.truthy folder && negb (Text.ends_with "/" folder)).
  - by rewrite string_app_assoc.
  - by rewrite string_app_nil_r.
Qed.

Lemma child_name_Some folder k n :
  os.child_name folder k = Some n ↔
  k = os.join folder n ∧ n ≠ "" ∧ Text.contains "/" n = false.
Proof.
  unfold os.child_name. split.
  - destruct (Text.strip_prefix _ k) as [m|] eqn:Hm; [|done].
    apply strip_prefix_Some in Hm as ->.
    destruct (Text.truthy m) eqn:Ht; [|done].
    destruct (Text.contains "/" m) eqn:Hc; [done|].
    intros [= <-]. split_and!; [by rewrite (join_prefix folder m)|by apply truthy_true|done].
  - intros (-> & Hn & Hc). rewrite (join_prefix folder n), strip_prefix_app, Hc.
    by rewrite (proj2 (truthy_true n) Hn).
Qed.

(** X1: [list_files_in_folder] leaves the world as it is.  On a directory it
    returns exactly the names of the regular files directly inside it: [n]
    is listed if and only if [n] is a non-empty name without a separator and
    the path joined from the folder and [n] is a regular file; directories
    inside the folder are left out.  On anything else the exception of
    [os.listdir] leaves the function. *)
Theorem list_files_in_folder_lists_regular_files folder w :
  if bool_decide (folder ∈ dirs (fs w))
  then ∃ names,
         list_files_in_folder folder w = Ret names w ∧
         ∀ n, n ∈ names ↔
              is_Some (files (fs w) !! os.join folder n) ∧
              n ≠ "" ∧ Text.contains "/" n = false
  else ∃ e, list_files_in_folder folder w = Raise e w.
Proof.
  rewrite list_files_in_folder_run. case_bool_decide as Hdir.
  - eexists. split; [done|]. intros n. unfold file_names.
    rewrite list_elem_of_filter. unfold os.isfile, os.entries.
    rewrite bool_decide_spec, elem_of_app, !list_elem_of_omap. split.
    + intros [Hfile [(k & _ & Hk)|(k & _ & Hk)]];
        apply child_name_Some in Hk as (_ & Hn & Hc); done.
    + intros ([c Hc] & Hn & Hs). split; [by exists c|]. left.
      exists (os.join folder n). split.
      * apply list_elem_of_fmap. exists (os.join folder n, c).
        split; [done|]. by apply elem_of_map_to_list.
      * by apply child_name_Some.
  - destruct (os.isfile folder (fs w)); eauto.
Qed.

(** ** The store, initialised from less *)

Lemma read_check_other path path' data f :
  path ≠ path' →
  read_check path' (set_files <[path := data]> f) = read_check path' f.
Proof. intros Hne. unfold read_check. simpl. by rewrite lookup_insert_ne. Qed.

(** X3: when the store area and the pointer exist but no log is listed, the
    log created is [chathistory_0.txt] whatever the pointer says, and the
    value returned for the current conversation is the trimmed first line of
    the pointer.  A pointer that names another log therefore names a file
    that does not exist once the initialisation is over. *)
Theorem first_log_ignores_pointer w content :
  conversations_dir ∈ dirs (fs w) →
  read_check (conversations_dir +:+ "currentchat.txt") (fs w) = inr content →
  conversation_logs (fs w) = [] →
  write_check (conversations_dir +:+ "chathistory_0.txt") (fs w) = None →
  let current_chat := Text.strip (Text.readline content) in
  let w' := log [Open W (conversations_dir +:+ "chathistory_0.txt") true;
                 Open R (conversations_dir +:+ "currentchat.txt") true]
                (set_fs (set_files <[conversations_dir +:+ "chathistory_0.txt" := ""]>
                                   (fs w)) w) in
  ensure_initialized w = Ret (["chathistory_0.txt"], current_chat) w' ∧
  (current_chat ≠ "" → Text.contains "/" current_chat = false →
   current_chat ≠ "currentchat.txt" → current_chat ≠ "chathistory_0.txt" →
   files (fs w') !! (conversations_dir +:+ current_chat) = None).
Proof.
  intros Hdir Hread Hlogs Hwrite current_chat w'. split.
  - unfold ensure_initialized.
    unfold bind at 1. unfold if_not_exists at 1.
    assert (os.exists_ conversations_dir (fs w) = true) as ->.
    { unfold os.exists_. by rewrite bool_decide_eq_true_2. }
    unfold bind at 1. unfold if_not_exists at 1.
    assert (os.exists_ (conversations_dir +:+ "currentchat.txt") (fs w) = true) as ->.
    { unfold os.exists_. apply orb_true_intro. right.
      apply bool_decide_eq_true_2. apply read_check_inr in Hread. eauto. }
    rewrite ensure_initialized_tail, bool_decide_eq_true_2 by done.
    unfold bind. rewrite Hlogs, Hwrite. simpl length. simpl Nat.eqb. cbv iota.
    rewrite read_file_run. simpl fs.
    rewrite read_check_other by discriminate. rewrite Hread.
    unfold ret, w'. by rewrite log_log.
  - intros Hne Hslash Hptr Hdefault.
    destruct (files (fs w) !! (conversations_dir +:+ current_chat)) as [c|] eqn:Hc.
    { assert (Hin : current_chat ∈ conversation_logs (fs w)).
      { apply conversation_logs_complete; [by exists c|by apply truthy_true|done..]. }
      rewrite Hlogs in Hin. by apply elem_of_nil in Hin. }
    unfold w'. simpl. rewrite lookup_insert_ne; [done|].
    intros Heq. by apply (inj (String.app conversations_dir)) in Heq.
Qed.

Lemma first_log_ignores_pointer_witness :
  let w := fresh pointer_only in
  let w' := final_world (ensure_initialized w) in
  ensure_initialized w = Ret (["chathistory_0.txt"], "chat7.txt") w' ∧
  files (fs w') !! (conversations_dir +:+ "chathistory_0.txt") = Some "" ∧
  files (fs w') !! (conversations_dir +:+ "chat7.txt") = None.
Proof.
  intros w w'.
  assert (Hdir : conversations_dir ∈ dirs (fs w)) by (vm_compute; reflexivity).
  assert (Hread : read_check (conversations_dir +:+ "currentchat.txt") (fs w)
                  = inr (" chat7.txt " +:+ Text.nl +:+ "ignored")) by reflexivity.
  assert (Hlogs : conversation_logs (fs w) = []) by (vm_compute; reflexivity).
  assert (Hwrite : write_check (conversations_dir +:+ "chathistory_0.txt") (fs w) = None)
    by reflexivity.
  destruct (first_log_ignores_pointer w _ Hdir Hread Hlogs Hwrite) as [Hrun Hmissing].
  split_and!; [exact Hrun|reflexivity|].
  apply Hmissing; [discriminate|reflexivity|discriminate|discriminate].
Defined.

Lemma omap_all_None {T U} (g : T → option U) (l : list T) :
  (∀ x, x ∈ l → g x = None) → omap g l = [].
Proof.
  induction l as [|x l IH]; intros Hnone; [done|]. simpl.
  rewrite (Hnone x) by apply list_elem_of_here.
  apply IH. intros y Hy. apply Hnone. by apply list_elem_of_further.
Qed.

Lemma NoDup_omap_inj {T U} (g : T → option U) (l : list T) :
  (∀ x y u, g x = Some u → g y = Some u → x = y) →
  NoDup l → NoDup (omap g l).
Proof.
  intros Hinj. induction 1 as [|x l Hx Hl IH]; simpl; [constructor|].
  destruct (g x) as [u|] eqn:Hu; [|done].
  constructor; [|done].
  intros (y & Hy & Hgy)%list_elem_of_omap.
  by rewrite (Hinj x y u Hu Hgy) in Hx.
Qed.

Lemma file_names_NoDup f :
  no_subdirectories f → NoDup (file_names conversations_dir f).
Proof.
  intros Hsub. unfold file_names, os.entries.
  rewrite (omap_all_None (λ k, os.child_name conversations_dir (os.drop_slash k)))
    by (intros k Hk; apply Hsub; by apply elem_of_elements).
  rewrite app_nil_r. apply NoDup_filter, NoDup_omap_inj.
  - intros x y n [-> _]%child_name_Some [-> _]%child_name_Some. reflexivity.
  - apply NoDup_fst_map_to_list.
Qed.

Lemma file_names_sound n f :
  n ∈ file_names conversations_dir f →
  is_Some (files f !! (conversations_dir +:+ n)).
Proof.
  unfold file_names. intros [Hfile _]%list_elem_of_filter.
  unfold os.isfile in Hfile. by apply bool_decide_unpack in Hfile.
Qed.

(** A store area that holds at most the pointer lists no log. *)
Lemma conversation_logs_only_pointer f :
  (∀ n, n ≠ "currentchat.txt" → files f !! (conversations_dir +:+ n) = None) →
  no_subdirectories f →
  conversation_logs f = [].
Proof.
  intros Hnone Hsub. unfold conversation_logs.
  pose proof (file_names_NoDup f Hsub) as Hnodup.
  assert (Hall : ∀ n, n ∈ file_names conversations_dir f → n = "currentchat.txt").
  { intros n [c Hc]%file_names_sound.
    destruct (decide (n = "currentchat.txt")) as [|Hne]; [done|].
    by rewrite Hnone in Hc. }
  destruct (file_names conversations_dir f) as [|x [|y l]]; [done| |].
  - rewrite (Hall x) by apply list_elem_of_here. reflexivity.
  - exfalso. apply NoDup_cons in Hnodup as [Hx _]. apply Hx.
    rewrite (Hall x) by apply list_elem_of_here.
    rewrite <- (Hall y) by apply list_elem_of_further, list_elem_of_here.
    apply list_elem_of_here.
Qed.

Lemma makedirs_run path w :
  makedirs path w =
  if os.exists_ path (fs w) then Raise (FileExistsError path) (log [MakeDirs path false] w)
  else if bool_decide (path ∈ unwritable (fs w))
       then Raise (PermissionError path) (log [MakeDirs path false] w)
       else Ret tt (log [MakeDirs path true]
                        (set_fs (set_dirs (union {[path]}) (fs w)) w)).
Proof.
  unfold makedirs, bind, get_fs. destruct (os.exists_ path (fs w)); [done|].
  by case_bool_decide.
Qed.

Lemma write_check_None path f :
  write_check path f = None ↔ (path ∉ dirs f) ∧ (path ∉ unwritable f).
Proof.
  unfold write_check. repeat case_bool_decide; split; try done; by intros [??].
Qed.

(** X2: started where there is no store area, nothing stored under its name
    and nothing in the way, the initialisation creates the area, then the
    pointer holding [chathistory_0.txt], then that log, empty; it returns
    that one log as the list of conversations and as the current one, and
    changes nothing else. *)
Theorem ensure_initialized_creates_store w :
  os.exists_ conversations_dir (fs w) = false →
  conversations_dir ∉ unwritable (fs w) →
  (∀ n, files (fs w) !! (conversations_dir +:+ n) = None) →
  no_subdirectories (fs w) →
  write_check (conversations_dir +:+ "currentchat.txt") (fs w) = None →
  conversations_dir +:+ "currentchat.txt" ∉ unreadable (fs w) →
  write_check (conversations_dir +:+ "chathistory_0.txt") (fs w) = None →
  let created :=
    mkFS (<[conversations_dir +:+ "chathistory_0.txt" := ""]>
            (<[conversations_dir +:+ "currentchat.txt" := "chathistory_0.txt"]>
               (files (fs w))))
         ({[conversations_dir]} ∪ dirs (fs w)) (unreadable (fs w)) (unwritable (fs w)) in
  ensure_initialized w =
  Ret (["chathistory_0.txt"], "chathistory_0.txt")
      (log [MakeDirs conversations_dir true;
            Open W (conversations_dir +:+ "currentchat.txt") true;
            Open W (conversations_dir +:+ "chathistory_0.txt") true;
            Open R (conversations_dir +:+ "currentchat.txt") true]
           (set_fs created w)).
Proof.
  intros Hmissing Hwd Hnone Hsub [Hpd Hpw]%write_check_None Hpr
         [Hld Hlw]%write_check_None created.
  unfold ensure_initialized.
  unfold bind at 1. unfold if_not_exists at 1. rewrite Hmissing, makedirs_run, Hmissing.
  rewrite bool_decide_eq_false_2 by done.
  set (wa := log [MakeDirs conversations_dir true]
                 (set_fs (set_dirs (union {[conversations_dir]}) (fs w)) w)).
  unfold bind at 1. unfold if_not_exists at 1.
  assert (os.exists_ (conversations_dir +:+ "currentchat.txt") (fs wa) = false) as ->.
  { unfold os.exists_. simpl. rewrite Hnone.
    rewrite bool_decide_eq_false_2; [done|].
    intros [Heq%elem_of_singleton|Hin]%elem_of_union; [discriminate Heq|done]. }
  rewrite write_file_run.
  assert (write_check (conversations_dir +:+ "currentchat.txt") (fs wa) = None) as ->.
  { apply write_check_None. split; [|done]. simpl.
    intros [Heq%elem_of_singleton|Hin]%elem_of_union; [discriminate Heq|done]. }
  set (wb := log [Open W (conversations_dir +:+ "currentchat.txt") true] _).
  rewrite ensure_initialized_tail.
  rewrite bool_decide_eq_true_2 by (simpl; apply elem_of_union_l, elem_of_singleton; done).
  assert (Hlogs : conversation_logs (fs wb) = []).
  { apply conversation_logs_only_pointer.
    - intros n Hn. simpl. rewrite lookup_insert_ne; [apply Hnone|].
      intros Heq. by apply (inj (String.app conversations_dir)) in Heq.
    - intros k [->%elem_of_singleton|Hk]%elem_of_union; [reflexivity|by apply Hsub]. }
  unfold bind. rewrite Hlogs. simpl length. simpl Nat.eqb. cbv iota.
  assert (write_check (conversations_dir +:+ "chathistory_0.txt") (fs wb) = None) as ->.
  { apply write_check_None. split; [|done]. simpl.
    intros [Heq%elem_of_singleton|Hin]%elem_of_union; [discriminate Heq|done]. }
  rewrite read_file_run.
  set (wc := log [Open W (conversations_dir +:+ "chathistory_0.txt") true] _).
  assert (read_check (conversations_dir +:+ "currentchat.txt") (fs wc)
          = inr "chathistory_0.txt") as ->.
  { unfold read_check. simpl.
    rewrite bool_decide_eq_false_2.
    2:{ intros [Heq%elem_of_singleton|Hin]%elem_of_union; [discriminate Heq|done]. }
    rewrite bool_decide_eq_false_2 by done.
    rewrite lookup_insert_ne by discriminate. by rewrite lookup_insert_eq. }
  unfold ret, wc, wb, wa. rewrite !set_fs_log, !log_log. reflexivity.
Qed.

Lemma ensure_initialized_creates_store_witness :
  let w := fresh empty_fs in
  ensure_initialized w =
  Ret (["chathistory_0.txt"], "chathistory_0.txt")
      (log [MakeDirs conversations_dir true;
            Open W (conversations_dir +:+ "currentchat.txt") true;
            Open W (conversations_dir +:+ "chathistory_0.txt") true;
            Open R (conversations_dir +:+ "currentchat.txt") true]
           (set_fs (mkFS (<[conversations_dir +:+ "chathistory_0.txt" := ""]>
                            (<[conversations_dir +:+ "currentchat.txt" := "chathistory_0.txt"]>
                               (files (fs w))))
                         ({[conversations_dir]} ∪ dirs (fs w))
                         (unreadable (fs w)) (unwritable (fs w))) w)).
Proof.
  intros w.
  apply (ensure_initialized_creates_store w).
  - reflexivity.
  - apply not_elem_of_empty.
  - intros n. apply lookup_empty.
  - intros k Hk. by apply not_elem_of_empty in Hk.
  - reflexivity.
  - apply not_elem_of_empty.
  - reflexivity.
Defined.

(** ** More on the channel *)

Lemma errors_app evs1 evs2 : errors (evs1 ++ evs2) = errors evs1 ++ errors evs2.
Proof. apply omap_app. Qed.

Lemma errors_poll_events f : errors (poll_events f) = [].
Proof.
  unfold poll_events. destruct (read_check output_file f) as [e|c]; [done|].
  by destruct (Text.truthy (Text.strip c)).
Qed.

Section ChannelMore.

Variable engine : nat → FS → FS.

Lemma retry_loop_errors max_retries d n : ∀ a w,
  a + n = max_retries →
  ∃ v w' evs,
    retry_loop engine max_retries d (seq a n) w = Ret v w' ∧
    trace w' = trace w ++ evs ∧
    errors evs = shown_errors engine d n (clock w) (fs w).
Proof.
  induction n as [|n IH]; intros a w Han.
  { exists fallback_message, w, []. by rewrite app_nil_r. }
  simpl seq. simpl retry_loop. unfold bind at 1. unfold sleep at 1.
  set (w1 := mkWorld (engine (clock w) (fs w)) (clock w + d)
                     (trace w ++ [Sleep d]) (session_state w)).
  unfold bind at 1, attempt_body, try_except. rewrite try_receive_run.
  assert (Hrest :
    ∃ v w' evs,
      retry_loop engine max_retries d (seq (S a) n) (log (poll_events (fs w1)) w1)
        = Ret v w' ∧
      trace w' = trace w ++ evs ∧
      errors evs = shown_errors engine d n (clock w + d) (engine (clock w) (fs w))).
  { destruct (IH (S a) (log (poll_events (fs w1)) w1)) as (v & w' & evs & Hrun & Htr & Herr);
      [lia|].
    exists v, w', (Sleep d :: poll_events (fs w1) ++ evs). split_and!; [done| |].
    - rewrite Htr. simpl. by rewrite <- !app_assoc.
    - change (Sleep d :: ?l) with ([Sleep d] ++ l).
      by rewrite !errors_app, errors_poll_events, Herr. }
  simpl shown_errors.
  change (poll (engine (clock w) (fs w))) with (poll (fs w1)).
  destruct (poll (fs w1)) as [v| |e] eqn:Hpoll.
  - exists v, (log (poll_events (fs w1)) (set_fs (cleared (fs w1)) w1)),
           (Sleep d :: poll_events (fs w1)).
    split_and!; [done|simpl; by rewrite <- app_assoc|].
    change (Sleep d :: ?l) with ([Sleep d] ++ l).
    by rewrite errors_app, errors_poll_events.
  - exact Hrest.
  - destruct (a =? max_retries - 1) eqn:Hlast.
    + apply Nat.eqb_eq in Hlast. assert (n = 0) as -> by lia.
      eexists _, _, (Sleep d :: poll_events (fs w1)
                     ++ [StError ("Error reading Scala response: " +:+ str_exn e)]).
      split_and!; [done|simpl; by rewrite <- !app_assoc|].
      change (Sleep d :: ?l) with ([Sleep d] ++ l).
      by rewrite !errors_app, errors_poll_events.
    + apply Nat.eqb_neq in Hlast. destruct n as [|n]; [lia|]. exact Hrest.
Qed.

Lemma quiet_before_two d t f :
  quiet_before engine d t f 2 ↔
  (∀ v, poll (engine t f) ≠ Got v) ∧ (∀ v, poll (engine (t + d) (engine t f)) ≠ Got v).
Proof.
  split.
  - intros Hq. split; intros v; [apply (Hq 0)|apply (Hq 1)]; lia.
  - intros [H0 H1] [|[|i]] Hi v; [apply H0|apply H1|lia].
Qed.

Lemma communicate_with_scala_errors user_input w :
  write_check input_file (fs w) = None →
  ∃ v w' evs,
    communicate_with_scala engine user_input w = Ret v w' ∧
    trace w' = trace w ++ evs ∧
    errors evs = shown_errors engine 2 3 (clock w) (sent user_input (fs w)).
Proof.
  intros Hw. unfold communicate_with_scala, try_except, bind.
  rewrite send_run, Hw.
  destruct (retry_loop_errors 3 2 3 0
              (log [Open W input_file true] (set_fs (sent user_input (fs w)) w)))
    as (v & w' & evs & Hrun & Htr & Herr); [done|].
  rewrite Hrun. exists v, w', (Open W input_file true :: evs).
  split_and!; [done|rewrite Htr; simpl; by rewrite <- app_assoc|].
  change (Open W input_file true :: evs) with ([Open W input_file true] ++ evs).
  by rewrite errors_app, Herr.
Qed.

(** X4: a storage error while reading or clearing the response slot is shown
    to the user only when it happens in the third round: then exactly one
    message, "Error reading Scala response: ..." with the text of that
    exception, is shown.  When the third round raises nothing (the slot is
    empty or yields the answer), or is never reached, nothing is shown,
    whatever the first two rounds raised. *)
Theorem read_error_shown_only_for_last_round user_input w :
  write_check input_file (fs w) = None →
  let f0 := sent user_input (fs w) in
  ∃ v w' evs,
    communicate_with_scala engine user_input w = Ret v w' ∧
    trace w' = trace w ++ evs ∧
    (∀ e, quiet_before engine 2 (clock w) f0 2 →
          observed engine 2 (clock w) f0 2 = Failed e →
          errors evs = ["Error reading Scala response: " +:+ str_exn e]) ∧
    ((∀ e, observed engine 2 (clock w) f0 2 ≠ Failed e) → errors evs = []) ∧
    (¬ quiet_before engine 2 (clock w) f0 2 → errors evs = []).
Proof.
  intros Hw f0.
  destruct (communicate_with_scala_errors user_input w Hw)
    as (v & w' & evs & Hrun & Htr & Herr).
  exists v, w', evs. split; [done|]. split; [done|].
  fold f0 in Herr. rewrite Herr. unfold observed. simpl.
  pose proof (quiet_before_two 2 (clock w) f0) as Hq2.
  set (p0 := poll (engine (clock w) f0)) in *.
  set (p1 := poll (engine (clock w + 2) (engine (clock w) f0))) in *.
  set (p2 := poll (engine (clock w + 2 + 2) _)).
  clearbody p0 p1 p2.
  destruct p0 as [v0| |e0], p1 as [v1| |e1], p2 as [v2| |e2];
    (split_and!;
     [ intros e [H0 H1]%Hq2 Heq;
       first [done|by destruct (H0 v0)|by destruct (H1 v1)|by injection Heq as ->]
     | intros Hno; first [done|by destruct (Hno e2)]
     | intros Hnot;
       first [done|by (exfalso; apply Hnot, Hq2; split; intros ?)] ]).
Qed.

End ChannelMore.

Lemma read_error_shown_only_for_last_round_witness :
  let w := session_started unreadable_response in
  let f0 := sent "Who directed Jaws?" (fs w) in
  write_check input_file (fs w) = None ∧
  quiet_before idle 2 (clock w) f0 2 ∧
  observed idle 2 (clock w) f0 2 = Failed (PermissionError output_file) ∧
  ∃ v w' evs,
    communicate_with_scala idle "Who directed Jaws?" w = Ret v w' ∧
    trace w' = trace w ++ evs ∧
    errors evs = ["Error reading Scala response: "
                  +:+ str_exn (PermissionError output_file)].
Proof.
  intros w f0.
  assert (Hw : write_check input_file (fs w) = None) by reflexivity.
  assert (Hquiet : quiet_before idle 2 (clock w) f0 2).
  { intros i Hi v Hobs. by destruct i as [|[|i]]; [..|lia]. }
  assert (Hobs : observed idle 2 (clock w) f0 2 = Failed (PermissionError output_file))
    by reflexivity.
  split_and!; [exact Hw|exact Hquiet|exact Hobs|].
  destruct (read_error_shown_only_for_last_round idle "Who directed Jaws?" w Hw)
    as (v & w' & evs & Hrun & Htr & Hshown & _).
  exists v, w', evs. split_and!; [exact Hrun|exact Htr|].
  exact (Hshown _ Hquiet Hobs).
Defined.

Section Delivery.

Variable engine : nat → FS → FS.

Lemma slept_poll d :
  (∀ t f, poll (engine t f) = poll f) →
  ∀ n t f, poll (slept engine d n t f) = poll f.
Proof.
  intros Hkeep. induction n as [|n IH]; intros t f; simpl; [done|].
  by rewrite IH.
Qed.

(** X5: [communicate_with_scala] leaves the session state alone and, of the
    files that the engine does not change, it changes only the request slot:
    every other file but the response slot has the text it had.  The request
    slot is overwritten, not appended to: when its write goes through it
    holds the new payload and a line terminator, whatever it held before;
    when the write is refused it holds what it held. *)
Theorem communicate_with_scala_touches_only_slots user_input w :
  ∃ v w',
    communicate_with_scala engine user_input w = Ret v w' ∧
    session_state w' = session_state w ∧
    (∀ path,
       path ≠ input_file → path ≠ output_file →
       (∀ t f, files (engine t f) !! path = files f !! path) →
       files (fs w') !! path = files (fs w) !! path) ∧
    ((∀ t f, files (engine t f) !! input_file = files f !! input_file) →
     files (fs w') !! input_file =
     match write_check input_file (fs w) with
     | None => Some (user_input +:+ Text.nl)
     | Some _ => files (fs w) !! input_file
     end).
Proof.
  destruct (communicate_with_scala_fs engine user_input w) as (v & w' & Hrun & Hss & _).
  exists v, w'. split_and!; [done|done| |].
  - intros path Hin Hout Hkeep. by eapply communicate_with_scala_frame.
  - intros Hkeep.
    pose proof (communicate_with_scala_run engine user_input w) as Hrun'.
    destruct (write_check input_file (fs w)) as [e|].
    { rewrite Hrun in Hrun'. by injection Hrun' as -> ->. }
    destruct Hrun' as (used & v' & evs & w'' & Hrun' & _ & Hcase).
    rewrite Hrun in Hrun'. injection Hrun' as <- <-.
    destruct Hcase as [(k & _ & -> & _ & _ & ->)|(-> & _ & _ & -> & _)].
    + change (files (cleared (slept engine 2 (S k) (clock w) (sent user_input (fs w))))
                !! input_file = Some (user_input +:+ Text.nl)).
      unfold cleared, set_files. cbn [files].
      rewrite lookup_insert_ne by apply not_eq_sym, input_output_distinct.
      rewrite (slept_files engine 2 input_file Hkeep (S k)). apply lookup_insert_eq.
    + change (files (slept engine 2 3 (clock w) (sent user_input (fs w)))
                !! input_file = Some (user_input +:+ Text.nl)).
      rewrite (slept_files engine 2 input_file Hkeep 3). apply lookup_insert_eq.
Qed.

(** X6: a response is handed out once.  When a call starts while the slot
    holds a response and the engine does nothing to the slot, the call
    returns that response after one wait and leaves the slot empty; and the
    call that follows, whatever it asks, returns the fixed message. *)
Theorem response_delivered_once q1 w v :
  write_check input_file (fs w) = None →
  poll (fs w) = Got v →
  (∀ t f, poll (engine t f) = poll f) →
  ∃ w1,
    communicate_with_scala engine q1 w = Ret v w1 ∧
    clock w1 = clock w + 2 ∧
    files (fs w1) !! output_file = Some "" ∧
    ∀ q2, ∃ w2, communicate_with_scala engine q2 w1 = Ret fallback_message w2.
Proof.
  intros Hw Hgot Hkeep.
  assert (Hsee : ∀ q w0 i, observed engine 2 (clock w0) (sent q (fs w0)) i = poll (fs w0)).
  { intros q w0 i. unfold observed. by rewrite slept_poll, poll_sent. }
  pose proof (communicate_with_scala_run engine q1 w) as Hrun. rewrite Hw in Hrun.
  destruct Hrun as (used & v1 & evs & w1 & Hrun & _ & Hcase).
  destruct Hcase as [(k & Hk & -> & Hq & Hobs & ->)|(-> & Hq & _ & _ & _)].
  2:{ destruct (Hq 0 ltac:(lia) v). by rewrite Hsee. }
  rewrite Hsee, Hgot in Hobs. injection Hobs as <-.
  destruct k as [|k].
  2:{ destruct (Hq 0 ltac:(lia) v). by rewrite Hsee. }
  eexists. split_and!; [exact Hrun|simpl; lia|apply lookup_insert_eq|].
  intros q2.
  set (w1 := log _ _) in *.
  assert (Hempty : poll (fs w1) = Empty).
  { apply (poll_cleared _ v). by rewrite (slept_poll 2 Hkeep 1), poll_sent. }
  pose proof (communicate_with_scala_run engine q2 w1) as Hrun2.
  destruct (write_check input_file (fs w1)) as [e|]; [eauto|].
  destruct Hrun2 as (used & v2 & evs2 & w2 & Hrun2 & _ & Hcase).
  destruct Hcase as [(k & Hk2 & -> & _ & Hobs & ->)|(-> & _ & -> & _ & _)]; [|eauto].
  by rewrite Hsee, Hempty in Hobs.
Qed.

End Delivery.

Lemma response_delivered_once_witness :
  let w := session_started response_waiting in
  let v := "Inception (2010) is a sci-fi thriller." in
  (write_check input_file (fs w) = None ∧ poll (fs w) = Got v ∧
   ∀ t f, poll (idle t f) = poll f) ∧
  ∃ w1,
    communicate_with_scala idle "What is Inception?" w = Ret v w1 ∧
    clock w1 = clock w + 2 ∧
    files (fs w1) !! output_file = Some "" ∧
    ∀ q2, ∃ w2, communicate_with_scala idle q2 w1 = Ret fallback_message w2.
Proof.
  intros w v.
  assert (Hw : write_check input_file (fs w) = None) by reflexivity.
  assert (Hgot : poll (fs w) = Got v) by reflexivity.
  assert (Hkeep : ∀ t f, poll (idle t f) = poll f) by reflexivity.
  split; [by split_and!|].
  exact (response_delivered_once idle "What is Inception?" w v Hw Hgot Hkeep).
Defined.

(** ** Runs of [main] *)

Global Instance no_step_preorder : PreOrder no_step.
Proof.
  split.
  - intros w. split; [done|]. exists []. by rewrite app_nil_r.
  - intros w1 w2 w3 [Hc12 (evs1 & Ht12 & Hs1)] [Hc23 (evs2 & Ht23 & Hs2)].
    split; [congruence|]. exists (evs1 ++ evs2).
    split; [by rewrite Ht23, Ht12, app_assoc|]. by rewrite steps_app, Hs1, Hs2.
Qed.

Global Instance same_memory_preorder : PreOrder same_memory.
Proof. split; unfold same_memory; [done|]. intros w1 w2 w3 ??. congruence. Qed.

Global Instance remembers_preorder : PreOrder remembers.
Proof.
  split.
  - intros w l Hl. exists []. by rewrite app_nil_r.
  - intros w1 w2 w3 H12 H23 l Hl.
    destruct (H12 l Hl) as [l1 Hl1]. destruct (H23 _ Hl1) as [l2 Hl2].
    exists (l1 ++ l2). by rewrite app_assoc.
Qed.

Global Instance unchanged_preorder path : PreOrder (unchanged path).
Proof. split; unfold unchanged; [done|]. intros f1 f2 f3 ??. congruence. Qed.

Lemma same_memory_remembers w w' : same_memory w w' → remembers w w'.
Proof. intros Hs l Hl. exists []. by rewrite app_nil_r, Hs. Qed.

Lemma throughout_ret {T} (rel : relation World) `{!Reflexive rel} (v : T) :
  throughout rel (ret v).
Proof. by intros w. Qed.

Lemma throughout_bind {T U} (rel : relation World) `{!Transitive rel}
      (m : Py T) (k : T → Py U) :
  throughout rel m → (∀ v, throughout rel (k v)) → throughout rel (bind m k).
Proof.
  intros Hm Hk w. unfold bind. specialize (Hm w).
  destruct (m w) as [v w'|e w']; simpl in *; [|done].
  etrans; [done|apply Hk].
Qed.

Lemma throughout_weaken {T} (rel rel' : relation World) (m : Py T) :
  (∀ w w', rel w w' → rel' w w') → throughout rel m → throughout rel' m.
Proof. intros Hsub Hm w. apply Hsub, Hm. Qed.

Lemma throughout_if_not_exists (rel : relation World) `{!Reflexive rel} path body :
  throughout rel body → throughout rel (if_not_exists path body).
Proof.
  intros Hbody w. unfold if_not_exists.
  destruct (os.exists_ path (fs w)); [done|apply Hbody].
Qed.

Lemma throughout_for_each {T} (rel : relation World) `{!PreOrder rel} (l : list T) body :
  (∀ x, throughout rel (body x)) → throughout rel (for_each l body).
Proof.
  intros Hbody. induction l as [|x l IH]; simpl.
  - apply throughout_ret; apply _.
  - apply throughout_bind; [apply _|apply Hbody|done].
Qed.

(** Events that are no step of the protocol. *)
Lemma no_step_log evs w : steps evs = [] → no_step w (log evs w).
Proof. intros Hs. split; [done|]. by exists evs. Qed.

Lemma no_step_read_file path : path ≠ output_file → throughout no_step (read_file path).
Proof.
  intros Hne w. rewrite read_file_run.
  destruct (read_check path (fs w)); simpl; apply no_step_log;
    unfold steps; simpl; by rewrite decide_False.
Qed.

Lemma no_step_write_file path data :
  path ≠ input_file → throughout no_step (write_file path data).
Proof.
  intros Hne w. rewrite write_file_run.
  destruct (write_check path (fs w)); simpl.
  - apply no_step_log. unfold steps. simpl. by rewrite decide_False.
  - split; [done|]. eexists. split; [done|].
    unfold steps. simpl. by rewrite decide_False.
Qed.

Lemma no_step_makedirs path : throughout no_step (makedirs path).
Proof.
  intros w. rewrite makedirs_run.
  destruct (os.exists_ path (fs w)); [by apply no_step_log|].
  case_bool_decide; [by apply no_step_log|].
  split; [done|]. by eexists.
Qed.

Lemma no_step_list_files_in_folder folder :
  throughout no_step (list_files_in_folder folder).
Proof.
  intros w. rewrite list_files_in_folder_run.
  case_bool_decide; [done|]. by destruct (os.isfile folder (fs w)).
Qed.

Lemma no_step_ensure_initialized : throughout no_step ensure_initialized.
Proof.
  unfold ensure_initialized.
  apply throughout_bind; [apply _| |intros _].
  { apply throughout_if_not_exists; [apply _|apply no_step_makedirs]. }
  apply throughout_bind; [apply _| |intros _].
  { apply throughout_if_not_exists; [apply _|]. by apply no_step_write_file. }
  apply throughout_bind; [apply _|apply no_step_list_files_in_folder|intros listed].
  apply throughout_bind; [apply _| |intros conversation_files].
  { destruct (length _ =? 0); [|apply throughout_ret; apply _].
    apply throughout_bind; [apply _|by apply no_step_write_file|intros _].
    apply throughout_ret; apply _. }
  apply throughout_bind; [apply _|by apply no_step_read_file|intros content].
  apply throughout_ret; apply _.
Qed.

Lemma same_memory_log evs w : same_memory w (log evs w).
Proof. done. Qed.

Lemma same_memory_read_file path : throughout same_memory (read_file path).
Proof.
  intros w. rewrite read_file_run. by destruct (read_check path (fs w)).
Qed.

Lemma same_memory_write_file path data : throughout same_memory (write_file path data).
Proof.
  intros w. rewrite write_file_run. by destruct (write_check path (fs w)).
Qed.

Lemma same_memory_append_file path data : throughout same_memory (append_file path data).
Proof.
  intros w. rewrite append_file_run. by destruct (write_check path (fs w)).
Qed.

Lemma same_memory_makedirs path : throughout same_memory (makedirs path).
Proof.
  intros w. rewrite makedirs_run.
  destruct (os.exists_ path (fs w)); [done|]. by case_bool_decide.
Qed.

Lemma same_memory_list_files_in_folder folder :
  throughout same_memory (list_files_in_folder folder).
Proof.
  intros w. rewrite list_files_in_folder_run.
  case_bool_decide; [done|]. by destruct (os.isfile folder (fs w)).
Qed.

Lemma same_memory_ensure_initialized : throughout same_memory ensure_initialized.
Proof.
  unfold ensure_initialized.
  apply throughout_bind; [apply _| |intros _].
  { apply throughout_if_not_exists; [apply _|apply same_memory_makedirs]. }
  apply throughout_bind; [apply _| |intros _].
  { apply throughout_if_not_exists; [apply _|apply same_memory_write_file]. }
  apply throughout_bind; [apply _|apply same_memory_list_files_in_folder|intros listed].
  apply throughout_bind; [apply _| |intros conversation_files].
  { destruct (length _ =? 0); [|apply throughout_ret; apply _].
    apply throughout_bind; [apply _|apply same_memory_write_file|intros _].
    apply throughout_ret; apply _. }
  apply throughout_bind; [apply _|apply same_memory_read_file|intros content].
  apply throughout_ret; apply _.
Qed.

Lemma same_memory_chat_memory : throughout same_memory chat_memory.
Proof.
  intros w. unfold chat_memory.
  by destruct (session_state w !! "chat_memory") as [[|l]|].
Qed.

Lemma remembers_session_default key v : throughout remembers (session_default key v).
Proof.
  intros w. unfold session_default.
  destruct (session_state w !! key) eqn:Hkey; [done|]. simpl.
  intros l Hl. exists []. rewrite app_nil_r. simpl.
  rewrite lookup_insert_ne; [done|]. intros ->. congruence.
Qed.

Lemma remembers_chat_memory_append x : throughout remembers (chat_memory_append x).
Proof.
  intros w. unfold chat_memory_append.
  destruct (session_state w !! "chat_memory") as [[|l]|] eqn:Hm; [done| |done].
  intros l0 Hl0. rewrite Hm in Hl0. injection Hl0 as <-.
  exists [x]. simpl. apply lookup_insert_eq.
Qed.

Lemma no_step_session_default key v : throughout no_step (session_default key v).
Proof.
  intros w. unfold session_default.
  destruct (session_state w !! key); [done|]. simpl.
  split; [done|]. exists []. by rewrite app_nil_r.
Qed.

Lemma no_step_chat_memory : throughout no_step chat_memory.
Proof.
  intros w. unfold chat_memory.
  by destruct (session_state w !! "chat_memory") as [[|l]|].
Qed.

Lemma no_step_chat_message role text : throughout no_step (chat_message_write role text).
Proof. intros w. by apply no_step_log. Qed.

Lemma same_memory_chat_message role text :
  throughout same_memory (chat_message_write role text).
Proof. by intros w. Qed.

(** [main] on the chat page, after lines 232-237. *)
Lemma main_after_defaults engine user_question w :
  main engine ChatInterface user_question w =
  (do init <- ensure_initialized;
   do memory <- chat_memory;
   for_each memory (λ i, chat_message_write USER (question i) ;;;
                         chat_message_write ASSISTANT (answer i)) ;;;
   ask engine init.2 user_question) (with_defaults w).
Proof.
  assert (Hs : ∀ key v w0, ∃ w1, session_default key v w0 = Ret tt w1).
  { intros key v w0. unfold session_default.
    destruct (session_state w0 !! key); eauto. }
  destruct (Hs "conversation" PyNone w) as [wa Ha].
  destruct (Hs "chat_memory" (PyList []) wa) as [wb Hb].
  assert (with_defaults w = wb) as ->.
  { unfold with_defaults, bind. by rewrite Ha, Hb. }
  unfold main.
  unfold bind at 1. rewrite Ha. unfold bind at 1. rewrite Hb. reflexivity.
Qed.

Lemma log_empty w : log [] w = w.
Proof. destruct w. unfold log. simpl. by rewrite app_nil_r. Qed.

Lemma for_each_replay mem w :
  for_each mem (λ i, chat_message_write USER (question i) ;;;
                     chat_message_write ASSISTANT (answer i)) w
  = Ret tt (log (replay mem) w).
Proof.
  revert w. induction mem as [|i mem IH]; intros w; simpl.
  - unfold ret. by rewrite log_empty.
  - unfold bind, chat_message_write, emit. rewrite IH, !log_log. reflexivity.
Qed.

Lemma with_defaults_memory w x :
  session_state w !! "chat_memory" = Some x →
  session_state (with_defaults w) !! "chat_memory" = Some x.
Proof.
  intros Hx. unfold with_defaults, bind, session_default.
  destruct (session_state w !! "conversation"); simpl.
  - by rewrite Hx.
  - rewrite lookup_insert_ne by done. rewrite Hx. simpl.
    by rewrite lookup_insert_ne.
Qed.

Lemma with_defaults_frame w :
  fs (with_defaults w) = fs w ∧ clock (with_defaults w) = clock w
  ∧ trace (with_defaults w) = trace w.
Proof.
  unfold with_defaults, bind, session_default.
  destruct (session_state w !! "conversation"); simpl.
  - by destruct (session_state w !! "chat_memory").
  - by destruct (<["conversation":=PyNone]> (session_state w) !! "chat_memory").
Qed.

Section RunsOfMain.

Variable engine : nat → FS → FS.

(** X9: on every run of the chat page whose store initialisation completes,
    the whole session memory is shown again, oldest exchange first, the
    question before its answer, after the initialisation and before the new
    question is looked at. *)
Theorem main_replays_history user_question w conversation_files current_chat w1 mem :
  ensure_initialized (with_defaults w) = Ret (conversation_files, current_chat) w1 →
  session_state (with_defaults w) !! "chat_memory" = Some (PyList mem) →
  main engine ChatInterface user_question w
  = ask engine current_chat user_question (log (replay mem) w1).
Proof.
  intros Hinit Hmem. rewrite main_after_defaults.
  unfold bind at 1. rewrite Hinit. unfold bind at 1.
  pose proof (same_memory_ensure_initialized (with_defaults w)) as Hsame.
  rewrite Hinit in Hsame. unfold same_memory in Hsame. simpl in Hsame.
  unfold chat_memory at 1. rewrite Hsame, Hmem.
  unfold bind at 1. by rewrite for_each_replay.
Qed.

(** The session memory after [ask]: as it was, or with the one exchange of
    the submitted question at its end. *)
Lemma ask_memory current_chat user_question w l :
  session_state w !! "chat_memory" = Some (PyList l) →
  let w' := final_world (ask engine current_chat user_question w) in
  (session_state w' !! "chat_memory" = Some (PyList l)
   ∧ (user_question = None ∨ user_question = Some ""))
  ∨ ∃ q v, user_question = Some q ∧ q ≠ "" ∧
           session_state w' !! "chat_memory" = Some (PyList (l ++ [mkInteraction q v])).
Proof.
  intros Hl w'. destruct user_question as [q|]; [|left; split; [done|by left]].
  destruct (decide (q = "")) as [->|Hq]; [left; split; [done|by right]|].
  right.
  destruct (communicate_with_scala_fs engine q w) as (v & w1 & Hrun & Hss & _).
  exists q, v. split_and!; [done..|].
  unfold w'. rewrite (ask_run engine _ _ _ _ _ l Hq Hrun) by by rewrite Hss.
  rewrite append_file_run.
  destruct (write_check _ _); simpl; apply lookup_insert_eq.
Qed.

(** X8: the session memory only grows, and by at most one exchange per run:
    whatever page is shown and however the run ends, the memory afterwards
    is the memory before, entry for entry, followed by nothing or by the one
    exchange whose question is the submitted, non-empty text. *)
Theorem session_memory_grows_by_append pg user_question w l :
  session_state w !! "chat_memory" = Some (PyList l) →
  let w' := final_world (main engine pg user_question w) in
  session_state w' !! "chat_memory" = Some (PyList l)
  ∨ ∃ q v, user_question = Some q ∧ q ≠ "" ∧
           session_state w' !! "chat_memory" = Some (PyList (l ++ [mkInteraction q v])).
Proof.
  intros Hl w'. destruct pg; [|by left].
  pose proof (main_after_defaults engine user_question w) as Hmain.
  apply with_defaults_memory in Hl.
  pose proof (same_memory_ensure_initialized (with_defaults w)) as Hsame.
  unfold same_memory in Hsame.
  unfold bind at 1 in Hmain.
  destruct (ensure_initialized (with_defaults w)) as [[cf cur] w1|e w1]; simpl in Hsame.
  2:{ left. unfold w'. rewrite Hmain. simpl. by rewrite Hsame. }
  unfold bind at 1 in Hmain. unfold chat_memory at 1 in Hmain.
  rewrite Hsame, Hl in Hmain.
  unfold bind at 1 in Hmain. rewrite for_each_replay in Hmain.
  unfold w'. rewrite Hmain.
  destruct (ask_memory cur user_question (log (replay l) w1) l) as [[Hm _]|Hm];
    [by rewrite <- Hl, <- Hsame|by left|by right].
Qed.

(** X7: a run of the chat page without a question (nothing submitted, or the
    empty text) takes no step of the channel protocol (no write of the
    request slot, no wait, no read of the response slot) and leaves the
    clock where it was; it keeps every file and directory, and leaves the
    session state as lines 232-237 set it. *)
Theorem main_without_question user_question w :
  user_question = None ∨ user_question = Some "" →
  let w' := final_world (main engine ChatInterface user_question w) in
  no_step w w' ∧ extends (fs w) (fs w') ∧
  session_state w' = session_state (with_defaults w).
Proof.
  intros Huq w'.
  assert (Hask : ∀ cur, ask engine cur user_question = ret tt).
  { intros cur. by destruct Huq as [-> | ->]. }
  destruct (with_defaults_frame w) as (Hfs & Hclock & Htrace).
  unfold w'. rewrite main_after_defaults.
  set (rest := bind ensure_initialized _).
  assert (Hno : throughout no_step rest).
  { apply throughout_bind; [apply _|apply no_step_ensure_initialized|intros init].
    apply throughout_bind; [apply _|apply no_step_chat_memory|intros memory].
    apply throughout_bind; [apply _| |intros _].
    - apply throughout_for_each; [apply _|]. intros i.
      apply throughout_bind; [apply _|apply no_step_chat_message|intros _].
      apply no_step_chat_message.
    - rewrite Hask. apply throughout_ret; apply _. }
  assert (Hsame : throughout same_memory rest).
  { apply throughout_bind; [apply _|apply same_memory_ensure_initialized|intros init].
    apply throughout_bind; [apply _|apply same_memory_chat_memory|intros memory].
    apply throughout_bind; [apply _| |intros _].
    - apply throughout_for_each; [apply _|]. intros i.
      apply throughout_bind; [apply _|apply same_memory_chat_message|intros _].
      apply same_memory_chat_message.
    - rewrite Hask. apply throughout_ret; apply _. }
  assert (Hext : always extends rest).
  { apply always_bind; [apply _|apply ensure_initialized_extends|intros init].
    apply always_bind; [apply _|apply always_chat_memory; apply _|intros memory].
    apply always_bind; [apply _| |intros _].
    - apply always_for_each; [apply _|]. intros i.
      apply always_bind; [apply _|apply always_emit; apply _|intros _].
      apply always_emit; apply _.
    - rewrite Hask. apply always_ret; apply _. }
  split_and!.
  - destruct (Hno (with_defaults w)) as [Hc (evs & Ht & Hs)].
    split; [congruence|]. exists evs. split; [congruence|done].
  - rewrite <- Hfs. apply Hext.
  - apply Hsame.
Qed.

End RunsOfMain.

(** ** The pointer and its log over a run *)

Lemma guarded_makedirs_files path u w w' :
  if_not_exists path (makedirs path) w = Ret u w' → files (fs w') = files (fs w).
Proof.
  unfold if_not_exists. destruct (os.exists_ path (fs w)); [by intros [= _ <-]|].
  rewrite makedirs_run. destruct (os.exists_ path (fs w)); [done|].
  case_bool_decide; [done|]. by intros [= _ <-].
Qed.

Lemma guarded_write_files path data u w w' :
  if_not_exists path (write_file path data) w = Ret u w' →
  files (fs w') = files (fs w)
  ∨ (files (fs w) !! path = None ∧ files (fs w') = <[path := data]> (files (fs w))).
Proof.
  unfold if_not_exists. destruct (os.exists_ path (fs w)) eqn:He.
  { intros [= _ <-]. by left. }
  apply exists_false in He as [_ Hnone].
  rewrite write_file_run. destruct (write_check path (fs w)); [done|].
  intros [= _ <-]. right. by split.
Qed.

(** The files after a completed [ensure_initialized]: those before it, and
    at most the pointer and the default log, created where they did not
    exist. *)
Lemma ensure_initialized_files w conversation_files current_chat w1 path :
  ensure_initialized w = Ret (conversation_files, current_chat) w1 →
  files (fs w1) !! path = files (fs w) !! path
  ∨ (files (fs w) !! path = None ∧
     ((path = conversations_dir +:+ "currentchat.txt" ∧
       files (fs w1) !! path = Some "chathistory_0.txt")
      ∨ (path = conversations_dir +:+ "chathistory_0.txt" ∧
         files (fs w1) !! path = Some ""))).
Proof.
  unfold ensure_initialized.
  intros (ua & wa & Ha%guarded_makedirs_files & Hrest)%bind_Ret.
  apply bind_Ret in Hrest as (ub & wb & Hb%guarded_write_files & Hrest).
  rewrite ensure_initialized_tail in Hrest.
  case_bool_decide as Hdir; [|by destruct (os.isfile conversations_dir (fs wb))].
  apply bind_Ret in Hrest as (cf & wc & Hc & Hrest).
  apply bind_Ret in Hrest as (content & wd & Hd & Hrest).
  injection Hrest as <- <- <-.
  rewrite read_file_run in Hd.
  destruct (read_check _ (fs wc)) as [e|c]; [done|].
  injection Hd as <- <-. simpl.
  assert (Hwc : files (fs wc) = files (fs wb)
                ∨ (files (fs wb) !! (conversations_dir +:+ "chathistory_0.txt") = None ∧
                   files (fs wc)
                   = <[conversations_dir +:+ "chathistory_0.txt" := ""]> (files (fs wb)))).
  { destruct (length (conversation_logs (fs wb)) =? 0) eqn:Hlen.
    - apply Nat.eqb_eq, no_logs_no_default in Hlen.
      destruct (write_check _ (fs wb)); [done|]. injection Hc as <- <-.
      right. by split.
    - injection Hc as <- <-. by left. }
  rewrite <- Ha.
  destruct Hb as [Hb|[Hbn Hb]], Hwc as [Hwc|[Hcn Hwc]]; rewrite Hwc, Hb.
  - by left.
  - rewrite Hb in Hcn.
    destruct (decide (path = conversations_dir +:+ "chathistory_0.txt")) as [->|Hne].
    + right. split; [done|]. right. split; [done|apply lookup_insert_eq].
    + left. by rewrite lookup_insert_ne.
  - destruct (decide (path = conversations_dir +:+ "currentchat.txt")) as [->|Hne].
    + right. split; [done|]. left. split; [done|apply lookup_insert_eq].
    + left. by rewrite lookup_insert_ne.
  - rewrite Hb in Hcn. rewrite lookup_insert_ne in Hcn by discriminate.
    destruct (decide (path = conversations_dir +:+ "chathistory_0.txt")) as [->|Hne].
    { right. split; [done|]. right. split; [done|apply lookup_insert_eq]. }
    rewrite lookup_insert_ne by done.
    destruct (decide (path = conversations_dir +:+ "currentchat.txt")) as [->|Hne'].
    + right. split; [done|]. left. split; [done|apply lookup_insert_eq].
    + left. by rewrite lookup_insert_ne.
Qed.

Lemma chat_memory_Ret mem w w' : chat_memory w = Ret mem w' → w' = w.
Proof.
  unfold chat_memory.
  destruct (session_state w !! "chat_memory") as [[|l]|]; [done| |done].
  by intros [= _ <-].
Qed.

Section PointerAndLog.

Variable engine : nat → FS → FS.

Lemma ask_appends name q w w' :
  q ≠ "" →
  (∀ t f, files (engine t f) !! (conversations_dir +:+ name)
          = files f !! (conversations_dir +:+ name)) →
  ask engine name (Some q) w = Ret tt w' →
  files (fs w') !! (conversations_dir +:+ name)
  = Some (default "" (files (fs w) !! (conversations_dir +:+ name)) +:+ q +:+ Text.nl).
Proof.
  intros Hq Hkeep Hask.
  unfold ask in Hask. rewrite (proj2 (truthy_true q) Hq) in Hask.
  apply bind_Ret in Hask as (v & w1 & Hrun & Hask).
  apply bind_Ret in Hask as (u2 & w2 & [= _ <-] & Hask).
  apply bind_Ret in Hask as (u3 & w3 & [= _ <-] & Hask).
  apply bind_Ret in Hask as (u4 & w4 & Hmem%chat_memory_append_Ret & Hask).
  rewrite append_file_run in Hask.
  destruct (write_check _ (fs w4)); [done|]. injection Hask as <-.
  simpl. rewrite lookup_insert_eq, Hmem. simpl.
  by rewrite (communicate_with_scala_frame engine _ _ _ _ _ (conversation_not_input name)
                (conversation_not_output name) Hkeep Hrun).
Qed.


(** X10: a completed run of the chat page with a question leaves the
    question and a line terminator at the end of the log that the pointer
    names: the trimmed first line of the pointer as it was before the run,
    or [chathistory_0.txt] when there was no pointer.  The text that log had
    before the run is kept in front of it; a log that did not exist starts
    with the question. *)
Theorem question_lands_in_pointed_log q w w' :
  q ≠ "" →
  main engine ChatInterface (Some q) w = Ret tt w' →
  let pointer :=
    default "chathistory_0.txt" (files (fs w) !! (conversations_dir +:+ "currentchat.txt")) in
  let log_file := conversations_dir +:+ Text.strip (Text.readline pointer) in
  (∀ t f, files (engine t f) !! log_file = files f !! log_file) →
  files (fs w') !! log_file
  = Some (default "" (files (fs w) !! log_file) +:+ q +:+ Text.nl).
Proof.
  intros Hq Hmain pointer log_file Hkeep.
  rewrite main_after_defaults in Hmain.
  destruct (with_defaults_frame w) as (Hfs & _ & _).
  apply bind_Ret in Hmain as ([cf cur] & w1 & Hinit & Hmain).
  apply bind_Ret in Hmain as (mem & w2 & ->%chat_memory_Ret & Hmain).
  apply bind_Ret in Hmain as (u & w3 & Hreplay & Hask).
  rewrite for_each_replay in Hreplay. injection Hreplay as <- <-.
  cbn [snd] in Hask.
  destruct (ensure_initialized_inv _ _ _ _ Hinit)
    as (_ & _ & _ & content & Hread%read_check_inr & Hcur).
  assert (Hptr : content = pointer).
  { unfold pointer. rewrite <- Hfs.
    destruct (ensure_initialized_files _ _ _ _ (conversations_dir +:+ "currentchat.txt") Hinit)
      as [Hsame|[Hnone [[_ Hnew]|[Hne _]]]].
    - rewrite <- Hsame, Hread. reflexivity.
    - rewrite Hnone. simpl. congruence.
    - discriminate Hne. }
  subst content. fold log_file in Hkeep.
  assert (Hlog : default "" (files (fs w1) !! log_file)
                 = default "" (files (fs w) !! log_file)).
  { rewrite <- Hfs.
    destruct (ensure_initialized_files _ _ _ _ log_file Hinit)
      as [Hsame|[Hnone [[Hp Hnew]|[_ Hnew]]]].
    - by rewrite Hsame.
    - exfalso. rewrite Hp, Hfs in Hnone.
      unfold log_file, pointer in Hp. rewrite Hnone in Hp. discriminate Hp.
    - by rewrite Hnone, Hnew. }
  rewrite <- Hlog. subst cur.
  exact (ask_appends _ q _ w' Hq Hkeep Hask).
Qed.


End PointerAndLog.

(** ** The further statements at sample worlds *)

Lemma main_without_question_witness :
  let w := mid_session store_ready in
  let w' := final_world (main idle ChatInterface (Some "") w) in
  (Some "" = None ∨ Some "" = Some "") ∧
  no_step w w' ∧ extends (fs w) (fs w') ∧
  session_state w' = session_state (with_defaults w).
Proof.
  intros w w'.
  assert (Huq : Some "" = None ∨ Some "" = Some "") by (right; reflexivity).
  split; [exact Huq|].
  exact (main_without_question idle (Some "") w Huq).
Defined.

Lemma session_memory_grows_by_append_witness :
  let w := mid_session store_ready in
  let w' := final_world (main idle ChatInterface (Some "Who directed Jaws?") w) in
  session_state w !! "chat_memory" = Some (PyList one_exchange) ∧
  (session_state w' !! "chat_memory" = Some (PyList one_exchange)
   ∨ ∃ q v, Some "Who directed Jaws?" = Some q ∧ q ≠ "" ∧
            session_state w' !! "chat_memory"
            = Some (PyList (one_exchange ++ [mkInteraction q v]))).
Proof.
  intros w w'.
  assert (Hmem : session_state w !! "chat_memory" = Some (PyList one_exchange))
    by reflexivity.
  split; [exact Hmem|].
  exact (session_memory_grows_by_append idle ChatInterface
           (Some "Who directed Jaws?") w one_exchange Hmem).
Defined.

Lemma main_replays_history_witness :
  let w := mid_session store_ready in
  let w1 := final_world (ensure_initialized (with_defaults w)) in
  ensure_initialized (with_defaults w)
    = Ret (["chathistory_0.txt"], "chathistory_0.txt") w1 ∧
  session_state (with_defaults w) !! "chat_memory" = Some (PyList one_exchange) ∧
  main idle ChatInterface (Some "Who directed Jaws?") w
  = ask idle "chathistory_0.txt" (Some "Who directed Jaws?")
        (log [ChatMessage USER "What is Inception?";
              ChatMessage ASSISTANT "Inception (2010) is a sci-fi thriller."] w1).
Proof.
  intros w w1.
  assert (Hinit : ensure_initialized (with_defaults w)
                  = Ret (["chathistory_0.txt"], "chathistory_0.txt") w1).
  { vm_compute. reflexivity. }
  assert (Hmem : session_state (with_defaults w) !! "chat_memory"
                 = Some (PyList one_exchange)) by reflexivity.
  split_and!; [exact Hinit|exact Hmem|].
  exact (main_replays_history idle (Some "Who directed Jaws?") w _ _ w1 one_exchange
           Hinit Hmem).
Defined.

Lemma question_lands_in_pointed_log_witness :
  let w := fresh store_ready in
  let w' := final_world (main idle ChatInterface (Some "Who directed Jaws?") w) in
  let log_file := conversations_dir +:+ "chathistory_0.txt" in
  main idle ChatInterface (Some "Who directed Jaws?") w = Ret tt w' ∧
  files (fs w') !! log_file
  = Some (default "" (files (fs w) !! log_file) +:+ "Who directed Jaws?" +:+ Text.nl).
Proof.
  intros w w' log_file.
  assert (Hq : "Who directed Jaws?" ≠ "") by discriminate.
  assert (Hmain : main idle ChatInterface (Some "Who directed Jaws?") w = Ret tt w').
  { vm_compute. reflexivity. }
  split; [exact Hmain|].
  exact (question_lands_in_pointed_log idle "Who directed Jaws?" w w' Hq Hmain
           (λ t f, eq_refl)).
Defined.


(** X12: a completed store initialisation writes nothing but what is
    missing: every path other than the pointer and the default log has the
    file it had, or none; the pointer is as it was or, if there was none,
    holds [chathistory_0.txt]; the default log is as it was or, if there was
    none, is empty or still missing. *)
Theorem ensure_initialized_writes_only_missing w conversation_files current_chat w1 :
  ensure_initialized w = Ret (conversation_files, current_chat) w1 →
  let pointer := conversations_dir +:+ "currentchat.txt" in
  let default_log := conversations_dir +:+ "chathistory_0.txt" in
  (∀ path, path ≠ pointer → path ≠ default_log →
           files (fs w1) !! path = files (fs w) !! path) ∧
  files (fs w1) !! pointer
    = Some (default "chathistory_0.txt" (files (fs w) !! pointer)) ∧
  (files (fs w1) !! default_log = files (fs w) !! default_log
   ∨ (files (fs w) !! default_log = None ∧ files (fs w1) !! default_log = Some "")).
Proof.
  intros Hinit pointer default_log. split_and!.
  - intros path Hp Hl.
    destruct (ensure_initialized_files _ _ _ _ path Hinit)
      as [Hsame|[_ [[-> _]|[-> _]]]]; done.
  - destruct (ensure_initialized_inv _ _ _ _ Hinit)
      as (_ & _ & _ & content & Hread%read_check_inr & _).
    destruct (ensure_initialized_files _ _ _ _ pointer Hinit)
      as [Hsame|[Hnone [[_ Hnew]|[Hne _]]]].
    + rewrite <- Hsame. fold pointer in Hread. by rewrite Hread.
    + by rewrite Hnone, Hnew.
    + discriminate Hne.
  - destruct (ensure_initialized_files _ _ _ _ default_log Hinit)
      as [Hsame|[Hnone [[Hne _]|[_ Hnew]]]].
    + by left.
    + discriminate Hne.
    + by right.
Qed.

Lemma ensure_initialized_writes_only_missing_witness :
  let w := fresh pointer_only in
  let w1 := final_world (ensure_initialized w) in
  let pointer := conversations_dir +:+ "currentchat.txt" in
  let default_log := conversations_dir +:+ "chathistory_0.txt" in
  ensure_initialized w = Ret (["chathistory_0.txt"], "chat7.txt") w1 ∧
  (∀ path, path ≠ pointer → path ≠ default_log →
           files (fs w1) !! path = files (fs w) !! path) ∧
  files (fs w1) !! pointer
    = Some (default "chathistory_0.txt" (files (fs w) !! pointer)) ∧
  (files (fs w1) !! default_log = files (fs w) !! default_log
   ∨ (files (fs w) !! default_log = None ∧ files (fs w1) !! default_log = Some "")).
Proof.
  intros w w1 pointer default_log.
  assert (Hinit : ensure_initialized w = Ret (["chathistory_0.txt"], "chat7.txt") w1).
  { vm_compute. reflexivity. }
  split; [exact Hinit|].
  exact (ensure_initialized_writes_only_missing w _ _ w1 Hinit).
Defined.
